(** * adaptive-ingestion: pooled database access and schema provisioning

    A shallow embedding of [src/database/connection.py] (class
    [DatabaseConnection]) and [src/database/setup.py] (class
    [DatabaseSetup]), and the properties of the specification that can be
    settled on it.

    Python code is embedded in a state-and-exception monad.  The objects the
    code talks to (the psycopg2 pool, connections and cursors) are an
    abstract [Driver]: every call of the code to the driver may return or
    raise, and every such call is recorded, with its outcome, in a trace.
    The properties of the statement executor hold for every driver.

    Two parts of the environment are not in the sources and are modelled
    from the specification: the bookkeeping of the connection pool
    ([pool], [pool_step]) and the schema of the database server
    ([catalog], [pg_exec]).  [DatabaseSetup] itself is embedded over any
    object with the two methods it calls. *)

From Stdlib Require Import ZArith Bool Ascii String List Lia.
From stdpp Require Import base option list strings gmap sets.

Local Open Scope string_scope.
Local Open Scope Z_scope.
Local Open Scope list_scope.

(** ** Python values and exceptions *)

(** The column values that occur in result rows and parameter tuples. *)
Inductive value : Type :=
| VNone
| VBool (b : bool)
| VInt (n : Z)
| VStr (s : string).

(** Python truthiness ([if v:]). *)
Definition truthy (v : value) : bool :=
  match v with
  | VNone => false
  | VBool b => b
  | VInt n => negb (n =? 0)
  | VStr s => negb (String.eqb s EmptyString)
  end.

Definition params : Type := list value.
Definition rows : Type := list (list value).

(** The exception classes the code names or can meet.  All of them derive
    from [Exception]; interrupts ([KeyboardInterrupt], [SystemExit]) are
    outside the model.  [Psycopg2Error] is [psycopg2.Error]. *)
Inductive exn_class : Type :=
| Exception_
| TypeError
| ValueError
| IndexError
| EOFError
| RuntimeError
| Psycopg2Error
| PoolError
| InterfaceError
| DatabaseError
| DataError
| OperationalError
| IntegrityError
| InternalError
| ProgrammingError
| NotSupportedError.

Definition exn_class_eqb (c d : exn_class) : bool :=
  match c, d with
  | Exception_, Exception_ | TypeError, TypeError | ValueError, ValueError
  | IndexError, IndexError | EOFError, EOFError | RuntimeError, RuntimeError
  | Psycopg2Error, Psycopg2Error | PoolError, PoolError
  | InterfaceError, InterfaceError | DatabaseError, DatabaseError
  | DataError, DataError | OperationalError, OperationalError
  | IntegrityError, IntegrityError | InternalError, InternalError
  | ProgrammingError, ProgrammingError
  | NotSupportedError, NotSupportedError => true
  | _, _ => false
  end.

(** The direct base class, as psycopg2 and the Python builtins declare it. *)
Definition base_class (c : exn_class) : option exn_class :=
  match c with
  | Exception_ => None
  | TypeError | ValueError | IndexError | EOFError | RuntimeError => Some Exception_
  | Psycopg2Error => Some Exception_
  | PoolError | InterfaceError | DatabaseError => Some Psycopg2Error
  | DataError | OperationalError | IntegrityError | InternalError
  | ProgrammingError | NotSupportedError => Some DatabaseError
  end.

Fixpoint issubclass_upto (depth : nat) (c d : exn_class) : bool :=
  exn_class_eqb c d ||
  match depth with
  | O => false
  | S depth' =>
      match base_class c with
      | Some b => issubclass_upto depth' b d
      | None => false
      end
  end.

(** The class tree has depth three below [Exception]. *)
Definition issubclass (c d : exn_class) : bool := issubclass_upto 3 c d.

(** An exception object: its class and its text ([str(e)]). *)
Record exn : Type := Exn { exn_cls : exn_class; str : string }.

Definition isinstance (e : exn) (c : exn_class) : bool := issubclass (exn_cls e) c.

(** ** The monad of Python computations *)

Inductive outcome (A : Type) : Type :=
| Return (a : A)
| Raise (e : exn).

Arguments Return {A} a.
Arguments Raise {A} e.

Definition M (S A : Type) : Type := S -> outcome A * S.

Definition ret {S A : Type} (a : A) : M S A := fun s => (Return a, s).

Definition raise {S A : Type} (e : exn) : M S A := fun s => (Raise e, s).

Definition bind {S A B : Type} (m : M S A) (k : A -> M S B) : M S B :=
  fun s =>
    match m s with
    | (Return a, s') => k a s'
    | (Raise e, s') => (Raise e, s')
    end.

Notation "x <- m ;; k" := (bind m (fun x => k))
  (at level 100, m at next level, right associativity).
Notation "m ;;; k" := (bind m (fun _ => k))
  (at level 100, right associativity).

(** One [except C1, C2 as e: body] clause. *)
Definition clause (S A : Type) : Type := list exn_class * (exn -> M S A).

(** The first clause naming a class of [e] handles it; an exception that no
    clause names propagates. *)
Fixpoint dispatch {S A : Type} (clauses : list (clause S A)) (e : exn) : M S A :=
  match clauses with
  | [] => raise e
  | (classes, handler) :: rest =>
      if existsb (isinstance e) classes then handler e else dispatch rest e
  end.

Definition try_except {S A : Type} (body : M S A) (clauses : list (clause S A)) : M S A :=
  fun s =>
    match body s with
    | (Return a, s') => (Return a, s')
    | (Raise e, s') => dispatch clauses e s'
    end.

(** [try: body finally: cleanup]: the cleanup runs on every exit of the
    body; an exception of the cleanup replaces the body's outcome. *)
Definition try_finally {S A : Type} (body : M S A) (cleanup : M S unit) : M S A :=
  fun s =>
    match body s with
    | (r, s') =>
        match cleanup s' with
        | (Return _, s'') => (r, s'')
        | (Raise e, s'') => (Raise e, s'')
        end
    end.

(** A local variable of type [L], visible to the body, its handlers and its
    cleanup, as Python's function locals are. *)
Definition with_local {L S A : Type} (init : L) (m : M (L * S) A) : M S A :=
  fun s => match m (init, s) with (r, (_, s')) => (r, s') end.

Definition lift {L S A : Type} (m : M S A) : M (L * S) A :=
  fun ls => match m (snd ls) with (r, s') => (r, (fst ls, s')) end.

Definition get_local {L S : Type} : M (L * S) L := fun ls => (Return (fst ls), ls).

Definition set_local {L S : Type} (l : L) : M (L * S) unit :=
  fun ls => (Return tt, (l, snd ls)).

(** [for x in xs: body x]. *)
Fixpoint for_each {S A : Type} (xs : list A) (body : A -> M S unit) : M S unit :=
  match xs with
  | [] => ret tt
  | x :: xs' => body x ;;; for_each xs' body
  end.

(** A loop that updates one local variable. *)
Fixpoint for_fold {S A B : Type} (xs : list A) (acc : B) (body : B -> A -> M S B) : M S B :=
  match xs with
  | [] => ret acc
  | x :: xs' => acc' <- body acc x ;; for_fold xs' acc' body
  end.

(** ** SQL statements

    The code passes SQL text to the driver.  The statements that
    [setup.py] builds are represented by their parsed form (the column lists
    of the [CREATE TABLE] statements are not modelled); any other text is
    [SqlText]. *)
Inductive sql : Type :=
| SqlText (text : string)
| SelectTableExists
| SelectConstraintExists
| SelectExtensionExists (extname : string)
| SelectCount (table : string)
| CreateExtensionIfNotExists (extname : string)
| CreateTable (table : string)
| AlterTableAddForeignKey (table constraint_name column : string)
| CreateIndexIfNotExists (index_name table column : string)
| CreateVectorIndexIfNotExists
| DropTableIfExistsCascade (table : string).

(** ** The driver: pool, connections, cursors *)

Definition conn : Type := nat.
Definition cursor : Type := nat.

(** What psycopg2 does when the code calls it, over a driver state [W]. *)
Record Driver (W : Type) : Type := {
  pool_getconn : W -> outcome conn * W;
  pool_putconn : conn -> W -> outcome unit * W;
  pool_closeall : W -> outcome unit * W;
  conn_cursor : conn -> W -> outcome cursor * W;
  conn_commit : conn -> W -> outcome unit * W;
  conn_rollback : conn -> W -> outcome unit * W;
  cur_execute : cursor -> sql -> option params -> W -> outcome unit * W;
  cur_executemany : cursor -> sql -> list params -> W -> outcome unit * W;
  cur_fetchall : cursor -> W -> outcome rows * W;
  cur_rowcount : cursor -> W -> Z;
  cur_close : cursor -> W -> outcome unit * W
}.

Arguments pool_getconn {W} _ _.
Arguments pool_putconn {W} _ _ _.
Arguments pool_closeall {W} _ _.
Arguments conn_cursor {W} _ _ _.
Arguments conn_commit {W} _ _ _.
Arguments conn_rollback {W} _ _ _.
Arguments cur_execute {W} _ _ _ _ _.
Arguments cur_executemany {W} _ _ _ _ _.
Arguments cur_fetchall {W} _ _ _.
Arguments cur_rowcount {W} _ _ _.
Arguments cur_close {W} _ _ _.

(** One call of the code to the driver, with its outcome. *)
Inductive event : Type :=
| Getconn (r : outcome conn)
| Putconn (c : conn) (r : outcome unit)
| Closeall (r : outcome unit)
| Cursor (c : conn) (r : outcome cursor)
| Commit (c : conn) (r : outcome unit)
| Rollback (c : conn) (r : outcome unit)
| Execute (cur : cursor) (query : sql) (p : option params) (r : outcome unit)
| Executemany (cur : cursor) (query : sql) (params_list : list params) (r : outcome unit)
| Fetchall (cur : cursor) (r : outcome rows)
| Rowcount (cur : cursor) (n : Z)
| Close (cur : cursor) (r : outcome unit).

Record world (W : Type) : Type := World {
  driver_state : W;
  trace : list event
}.

Arguments World {W} _ _.
Arguments driver_state {W} _.
Arguments trace {W} _.

(** ** connection.py *)

Section DatabaseConnection.

Context {W : Type} (self : Driver W).

(** A driver call: perform it and record it. *)
Definition call {A : Type} (op : W -> outcome A * W) (ev : outcome A -> event) : M (world W) A :=
  fun w =>
    match op (driver_state w) with
    | (r, d) => (r, World d (trace w ++ [ev r]))
    end.

Definition getconn : M (world W) conn :=
  call (pool_getconn self) Getconn.

Definition putconn (c : conn) : M (world W) unit :=
  call (pool_putconn self c) (Putconn c).

Definition closeall : M (world W) unit :=
  call (pool_closeall self) Closeall.

Definition cursor_of (c : conn) : M (world W) cursor :=
  call (conn_cursor self c) (Cursor c).

Definition commit (c : conn) : M (world W) unit :=
  call (conn_commit self c) (Commit c).

Definition rollback (c : conn) : M (world W) unit :=
  call (conn_rollback self c) (Rollback c).

Definition execute (cur : cursor) (query : sql) (p : option params) : M (world W) unit :=
  call (cur_execute self cur query p) (Execute cur query p).

Definition executemany (cur : cursor) (query : sql) (params_list : list params) : M (world W) unit :=
  call (cur_executemany self cur query params_list) (Executemany cur query params_list).

Definition fetchall (cur : cursor) : M (world W) rows :=
  call (cur_fetchall self cur) (Fetchall cur).

Definition rowcount (cur : cursor) : M (world W) Z :=
  fun w =>
    let n := cur_rowcount self cur (driver_state w) in
    (Return n, World (driver_state w) (trace w ++ [Rowcount cur n])).

Definition close_cursor (cur : cursor) : M (world W) unit :=
  call (cur_close self cur) (Close cur).

Definition get_connection : M (world W) conn := getconn.

Definition return_connection (c : conn) : M (world W) unit := putconn c.

Definition _get_connection_and_cursor : M (world W) (conn * cursor) :=
  try_except
    (connection <- getconn ;;
     cursor <- cursor_of connection ;;
     ret (connection, cursor))
    [ ([PoolError], fun _ => raise (Exn Exception_ "Connection pool exhausted"));
      ([OperationalError], fun _ =>
         raise (Exn Exception_ "Database initial connection failed, try again")) ].

(** The local variable [connection] of the three [execute_*] methods: [None]
    until the helper has returned.  A connection object is truthy, so
    [if connection:] asks whether the variable was assigned. *)
Definition frame : Type := option conn * world W.

(** [if connection: connection.rollback()] *)
Definition rollback_if_connection : M frame unit :=
  connection <- get_local ;;
  match connection with
  | Some c => lift (rollback c)
  | None => ret tt
  end.

(** [finally: if connection: self.pool.putconn(connection)] *)
Definition putconn_if_connection : M frame unit :=
  connection <- get_local ;;
  match connection with
  | Some c => lift (putconn c)
  | None => ret tt
  end.

Definition execute_query (query : sql) (p : option params) : M (world W) rows :=
  with_local None
    (try_finally
       (try_except
          (cc <- lift _get_connection_and_cursor ;;
           let '(connection, cursor) := cc in
           set_local (Some connection) ;;;
           lift (execute cursor query p) ;;;
           result <- lift (fetchall cursor) ;;
           lift (close_cursor cursor) ;;;
           ret result)
          [ ([PoolError], fun _ => raise (Exn Exception_ "Connection pool exhausted"));
            ([OperationalError], fun _ =>
               raise (Exn Exception_ "Database connection failed during query, try again"));
            ([ProgrammingError], fun e =>
               raise (Exn Exception_ ("Query error: " +:+ str e)));
            ([IntegrityError], fun e =>
               raise (Exn Exception_ ("Data Constraint violation: " +:+ str e)));
            ([Exception_], fun e =>
               raise (Exn Exception_ ("Unexpected database error: " +:+ str e))) ])
       putconn_if_connection).

Definition execute_update (query : sql) (p : option params) : M (world W) Z :=
  with_local None
    (try_finally
       (try_except
          (cc <- lift _get_connection_and_cursor ;;
           let '(connection, cursor) := cc in
           set_local (Some connection) ;;;
           lift (execute cursor query p) ;;;
           lift (commit connection) ;;;
           affected_rows <- lift (rowcount cursor) ;;
           lift (close_cursor cursor) ;;;
           ret affected_rows)
          [ ([PoolError], fun _ => raise (Exn Exception_ "Connection pool exhausted"));
            ([OperationalError], fun _ =>
               rollback_if_connection ;;;
               raise (Exn Exception_ "Database connection failed during update, try again"));
            ([IntegrityError], fun e =>
               rollback_if_connection ;;;
               raise (Exn Exception_ ("Data constraint violation: " +:+ str e)));
            ([DataError], fun e =>
               rollback_if_connection ;;;
               raise (Exn Exception_ ("Invalid data: " +:+ str e)));
            ([ProgrammingError], fun e =>
               rollback_if_connection ;;;
               raise (Exn Exception_ ("Query error: " +:+ str e))) ])
       putconn_if_connection).

(** [params_list] is a list of parameter tuples; [not params_list] holds of
    the empty list. *)
Definition execute_many (query : sql) (params_list : list params) : M (world W) Z :=
  with_local None
    (try_finally
       (try_except
          ((match params_list with
            | [] => raise (Exn ValueError "params_list cannot be empty")
            | _ :: _ => ret tt
            end) ;;;
           cc <- lift _get_connection_and_cursor ;;
           let '(connection, cursor) := cc in
           set_local (Some connection) ;;;
           lift (executemany cursor query params_list) ;;;
           lift (commit connection) ;;;
           affected <- lift (rowcount cursor) ;;
           lift (close_cursor cursor) ;;;
           ret affected)
          [ ([PoolError], fun _ => raise (Exn Exception_ "Connection pool exhausted"));
            ([OperationalError], fun e =>
               rollback_if_connection ;;;
               raise (Exn Exception_ ("Database connection failed: " +:+ str e)));
            ([IntegrityError], fun e =>
               rollback_if_connection ;;;
               raise (Exn Exception_
                        ("Batch operation has failed - constraint violation: " +:+ str e)));
            ([DataError], fun e =>
               rollback_if_connection ;;;
               raise (Exn Exception_
                        ("Batch operation has failed - invalid data: " +:+ str e)));
            ([ProgrammingError], fun e =>
               rollback_if_connection ;;;
               raise (Exn Exception_ ("Query error: " +:+ str e)));
            ([TypeError; ValueError], fun e =>
               rollback_if_connection ;;;
               raise (Exn Exception_ ("Invalid parameters format: " +:+ str e))) ])
       putconn_if_connection).

(** [close]: the pool object is truthy, so the pool is always closed. *)
Definition close : M (world W) unit := closeall.

End DatabaseConnection.

(** A driver that answers every call from a fixed script, whatever it was
    asked before: the mocks of [tests/test_database_connection.py]. *)
Record script : Type := Script {
  on_getconn : outcome conn;
  on_cursor : outcome cursor;
  on_execute : outcome unit;
  on_fetchall : outcome rows;
  on_rowcount : Z;
  on_close : outcome unit;
  on_commit : outcome unit;
  on_rollback : outcome unit;
  on_putconn : outcome unit
}.

Definition scripted (s : script) : Driver unit := {|
  pool_getconn := fun w => (on_getconn s, w);
  pool_putconn := fun _ w => (on_putconn s, w);
  pool_closeall := fun w => (Return tt, w);
  conn_cursor := fun _ w => (on_cursor s, w);
  conn_commit := fun _ w => (on_commit s, w);
  conn_rollback := fun _ w => (on_rollback s, w);
  cur_execute := fun _ _ _ w => (on_execute s, w);
  cur_executemany := fun _ _ _ w => (on_execute s, w);
  cur_fetchall := fun _ w => (on_fetchall s, w);
  cur_rowcount := fun _ _ => on_rowcount s;
  cur_close := fun _ w => (on_close s, w)
|}.

(** The script in which every call succeeds. *)
Definition all_ok (result : rows) (affected : Z) : script := {|
  on_getconn := Return 1%nat;
  on_cursor := Return 2%nat;
  on_execute := Return tt;
  on_fetchall := Return result;
  on_rowcount := affected;
  on_close := Return tt;
  on_commit := Return tt;
  on_rollback := Return tt;
  on_putconn := Return tt
|}.

Definition start : world unit := World tt [].

(** The statement phase of a read query: what [execute_query] runs on the
    cursor once the helper has returned. *)
Definition query_statement {W : Type} (self : Driver W) (cur : cursor) (query : sql)
    (p : option params) : M (world W) rows :=
  execute self cur query p ;;;
  result <- fetchall self cur ;;
  close_cursor self cur ;;;
  ret result.

(** Scripts in which one call fails. *)
Definition cursor_fails (e : exn) : script := {|
  on_getconn := Return 1%nat;
  on_cursor := Raise e;
  on_execute := Return tt;
  on_fetchall := Return [];
  on_rowcount := 0;
  on_close := Return tt;
  on_commit := Return tt;
  on_rollback := Return tt;
  on_putconn := Return tt
|}.

Definition execute_fails (e : exn) : script := {|
  on_getconn := Return 1%nat;
  on_cursor := Return 2%nat;
  on_execute := Raise e;
  on_fetchall := Return [];
  on_rowcount := 0;
  on_close := Return tt;
  on_commit := Return tt;
  on_rollback := Return tt;
  on_putconn := Return tt
|}.

Definition integrity_failure : exn :=
  Exn IntegrityError "duplicate key value violates unique constraint".

(** ** Strings *)

(** [s.startswith(pre)] *)
Fixpoint startswith (pre s : string) : bool :=
  match pre with
  | EmptyString => true
  | String a pre' =>
      match s with
      | EmptyString => false
      | String b s' => Ascii.eqb a b && startswith pre' s'
      end
  end.

(** [str.lower()] on the ASCII letters. *)
Definition lower_ascii (c : ascii) : ascii :=
  let n := nat_of_ascii c in
  if ((65 <=? n) && (n <=? 90))%nat then ascii_of_nat (n + 32) else c.

Fixpoint lower (s : string) : string :=
  match s with
  | EmptyString => EmptyString
  | String c s' => String (lower_ascii c) (lower s')
  end.

(** [sub in s] *)
Fixpoint contains (sub s : string) : bool :=
  startswith sub s ||
  match s with
  | EmptyString => false
  | String _ s' => contains sub s'
  end.

(** ** The error taxonomy

    The code raises plain [Exception] objects; the error kind of the
    specification is carried by the text of the message.  [kind] reads the
    kind off a raised exception: one of the message forms the three
    [execute_*] methods and their helper produce, raised as [Exception]. *)
Inductive ErrorKind : Type :=
| PoolExhausted
| ConnectionFailure
| QueryError
| ConstraintViolation
| InvalidData
| InvalidParameters
| Unexpected.

Definition message_forms : list (string * ErrorKind) :=
  [ ("Connection pool exhausted", PoolExhausted);
    ("Database initial connection failed, try again", ConnectionFailure);
    ("Database connection failed during query, try again", ConnectionFailure);
    ("Database connection failed during update, try again", ConnectionFailure);
    ("Database connection failed: ", ConnectionFailure);
    ("Query error: ", QueryError);
    ("Data Constraint violation: ", ConstraintViolation);
    ("Data constraint violation: ", ConstraintViolation);
    ("Batch operation has failed - constraint violation: ", ConstraintViolation);
    ("Invalid data: ", InvalidData);
    ("Batch operation has failed - invalid data: ", InvalidData);
    ("Invalid parameters format: ", InvalidParameters);
    ("Unexpected database error: ", Unexpected) ].

Definition kind_of_message (msg : string) : option ErrorKind :=
  match List.find (fun form => startswith (fst form) msg) message_forms with
  | Some form => Some (snd form)
  | None => None
  end.

Definition kind (e : exn) : option ErrorKind :=
  match exn_cls e with
  | Exception_ => kind_of_message (str e)
  | _ => None
  end.

(** The handlers that name a class of [e]: those of [execute_update], and
    those of [execute_many], which has one more clause. *)
Definition update_categorised (e : exn) : bool :=
  existsb (isinstance e)
    [PoolError; OperationalError; IntegrityError; DataError; ProgrammingError].

Definition batch_categorised (e : exn) : bool :=
  update_categorised e || existsb (isinstance e) [TypeError; ValueError].

(** ** Events of a trace *)

Definition is_putconn (ev : event) : bool :=
  match ev with Putconn _ _ => true | _ => false end.

Definition is_rollback (ev : event) : bool :=
  match ev with Rollback _ _ => true | _ => false end.

Definition is_commit (ev : event) : bool :=
  match ev with Commit _ _ => true | _ => false end.

Definition is_transactional (ev : event) : bool := is_commit ev || is_rollback ev.

(** The events of a call in which the connection [c] is released exactly
    once, as the last driver call. *)
Definition released_once (c : conn) (before after : list event) : Prop :=
  exists evs res,
    after = before ++ evs ++ [Putconn c res] /\ List.filter is_putconn evs = [].

(** ** The constructor and the pool *)

(** Modelled from the spec: the pool object itself
    ([psycopg2.pool.ThreadedConnectionPool]) is not part of the sources.
    Sections 3, 4.1 and 5 of the specification give it a minimum and a
    maximum size and a count of outstanding connections; sessions are
    created up to the maximum, an acquire on a saturated pool fails at once,
    a release returns the connection to the idle set, a shutdown closes
    every connection and makes later acquires fail, and the bookkeeping of
    concurrent callers is serialised, so that a concurrent run is a sequence
    of these steps in some order. *)
Record pool : Type := Pool {
  minconn : nat;
  maxconn : nat;
  connect_options : gmap string value;
  idle : nat;
  outstanding : nat;
  closed : bool
}.

Definition ThreadedConnectionPool (minconn maxconn : nat) (options : gmap string value) : pool :=
  {| minconn := minconn; maxconn := maxconn; connect_options := options;
     idle := minconn; outstanding := 0; closed := false |}.

Definition live (p : pool) : nat := (idle p + outstanding p)%nat.

Inductive pool_op : Type := Acquire | Release | Shutdown.

Definition pool_step (p : pool) (op : pool_op) : outcome unit * pool :=
  match op with
  | Acquire =>
      if closed p then (Raise (Exn PoolError "connection pool is closed"), p)
      else if (0 <? idle p)%nat then
        (Return tt, {| minconn := minconn p; maxconn := maxconn p;
                       connect_options := connect_options p;
                       idle := (idle p - 1)%nat; outstanding := S (outstanding p);
                       closed := false |})
      else if (outstanding p <? maxconn p)%nat then
        (Return tt, {| minconn := minconn p; maxconn := maxconn p;
                       connect_options := connect_options p;
                       idle := idle p; outstanding := S (outstanding p);
                       closed := false |})
      else (Raise (Exn PoolError "connection pool exhausted"), p)
  | Release =>
      if closed p then (Raise (Exn PoolError "connection pool is closed"), p)
      else if (0 <? outstanding p)%nat then
        (Return tt, {| minconn := minconn p; maxconn := maxconn p;
                       connect_options := connect_options p;
                       idle := S (idle p); outstanding := (outstanding p - 1)%nat;
                       closed := false |})
      else (Raise (Exn PoolError "trying to put unkeyed connection"), p)
  | Shutdown =>
      (Return tt, {| minconn := minconn p; maxconn := maxconn p;
                     connect_options := connect_options p;
                     idle := 0; outstanding := 0; closed := true |})
  end.

(** A concurrent run: the pool steps of all callers in the order in which
    the pool serialises them, each tagged with the caller that issued it. *)
Definition schedule : Type := list (nat * pool_op).

Definition run_pool (p : pool) (sched : schedule) : pool :=
  fold_left (fun p step => snd (pool_step p (snd step))) sched p.

(** Python keyword arguments ([**kwargs]): a dictionary, which keeps the
    keywords in the order in which the caller wrote them. *)
Definition keywords : Type := list (string * value).

(** The first keyword of [kwargs], in the caller's order, that is one of
    [names]: the one that Python names when a call gives a value twice. *)
Definition first_keyword (names : list string) (kwargs : keywords) : option string :=
  List.find (fun k => existsb (String.eqb k) names) (map fst kwargs).

(** The dictionary that the keywords denote. *)
Definition to_options (kwargs : keywords) : gmap string value := list_to_map kwargs.

(** Modelled from the spec: the constructor of the pool is not part of the
    sources.  The call [ThreadedConnectionPool(minconn, maxconn, **kwargs)]
    makes a pool with these bounds and forwards the keywords unchanged to
    the connector (sections 3 and 5); establishing a session can fail
    (section 4.1), and the pool opens its minimum of sessions when it is
    made, so that this failure leaves the constructor as it is.  [connect]
    is the answer of the server to a session request with the given
    options.  The parameters of the constructor are [self], [minconn] and
    [maxconn]: Python rejects a call in which a keyword names one of them
    again, before anything is opened. *)
Fixpoint open_sessions (connect : gmap string value -> outcome unit)
    (options : gmap string value) (n : nat) : outcome unit :=
  match n with
  | O => Return tt
  | S n' =>
      match connect options with
      | Return _ => open_sessions connect options n'
      | Raise e => Raise e
      end
  end.

Definition pool_parameters : list string := ["self"; "minconn"; "maxconn"].

Definition ThreadedConnectionPool_init (connect : gmap string value -> outcome unit)
    (minconn maxconn : nat) (kwargs : keywords) : outcome pool :=
  match first_keyword pool_parameters kwargs with
  | Some k =>
      Raise (Exn TypeError
               ("ThreadedConnectionPool.__init__() got multiple values for argument '"
                +:+ k +:+ "'"))
  | None =>
      match open_sessions connect (to_options kwargs) minconn with
      | Return _ => Return (ThreadedConnectionPool minconn maxconn (to_options kwargs))
      | Raise e => Raise e
      end
  end.

(** [DatabaseConnection.__init__(self, host, dbname, user, password,
    **kwargs)], called with the four arguments by position.  Python binds
    the call before the body runs and rejects a keyword that names a
    parameter already given: [self], [host], [dbname], [user] or
    [password].  The body then builds the call of the pool, in which
    [host], [database], [user] and [password] are written out and may not
    come again from [**kwargs].  The texts are those of CPython 3.10 and
    later.  The method has no [except] clause: what the call of the pool
    raises leaves the constructor as it is. *)
Record DatabaseConnection : Type := { self_pool : pool }.

Definition bound_keywords : list string := ["self"; "host"; "dbname"; "user"; "password"].

Definition explicit_keywords : list string := ["host"; "database"; "user"; "password"].

(** The keywords of the call of the pool, in the order of the source. *)
Definition call_keywords (host dbname user password : string) (kwargs : keywords)
  : keywords :=
  ("host", VStr host) :: ("database", VStr dbname) :: ("user", VStr user)
  :: ("password", VStr password) :: kwargs.

Definition __init__ (connect : gmap string value -> outcome unit)
    (host dbname user password : string) (kwargs : keywords)
  : outcome DatabaseConnection :=
  match first_keyword bound_keywords kwargs with
  | Some k =>
      Raise (Exn TypeError
               ("DatabaseConnection.__init__() got multiple values for argument '"
                +:+ k +:+ "'"))
  | None =>
      match first_keyword explicit_keywords kwargs with
      | Some k =>
          Raise (Exn TypeError
                   ("psycopg2.pool.ThreadedConnectionPool() got multiple values for keyword argument '"
                    +:+ k +:+ "'"))
      | None =>
          match ThreadedConnectionPool_init connect 1 10
                  (call_keywords host dbname user password kwargs) with
          | Return p => Return {| self_pool := p |}
          | Raise e => Raise e
          end
      end
  end.

(** The keywords a caller can pass as extra driver options: any but the
    names that the two constructors use themselves. *)
Definition reserved_keywords : list string :=
  ["self"; "host"; "dbname"; "user"; "password"; "database"; "minconn"; "maxconn"].

Definition extra_options (kwargs : keywords) : Prop :=
  forall k, In k reserved_keywords -> ~ In k (map fst kwargs).

(** A server that accepts every session request, and one that refuses
    them all. *)
Definition accepting_server : gmap string value -> outcome unit :=
  fun _ => Return tt.

Definition refusing_server (e : exn) : gmap string value -> outcome unit :=
  fun _ => Raise e.

(** The pool of the specification behind the driver interface: [getconn]
    and [putconn] are its acquire and release, and the connections it lends
    answer from a script. *)
Definition pooled (s : script) : Driver pool := {|
  pool_getconn := fun p =>
    match pool_step p Acquire with
    | (Return _, p') => (Return (outstanding p'), p')
    | (Raise e, p') => (Raise e, p')
    end;
  pool_putconn := fun _ p => pool_step p Release;
  pool_closeall := fun p => pool_step p Shutdown;
  conn_cursor := fun _ p => (on_cursor s, p);
  conn_commit := fun _ p => (on_commit s, p);
  conn_rollback := fun _ p => (on_rollback s, p);
  cur_execute := fun _ _ _ p => (on_execute s, p);
  cur_executemany := fun _ _ _ p => (on_execute s, p);
  cur_fetchall := fun _ p => (on_fetchall s, p);
  cur_rowcount := fun _ _ => on_rowcount s;
  cur_close := fun _ p => (on_close s, p)
|}.

(** [n] queries in a row on the same pool. *)
Fixpoint query_repeatedly (s : script) (n : nat) (w : world pool) : world pool :=
  match n with
  | O => w
  | S n' => query_repeatedly s n' (snd (execute_query (pooled s) (SqlText "SELECT 1") None w))
  end.

(** ** Indexing *)

(** [xs[0]] on a list and on a tuple. *)
Definition list_getitem0 {S A : Type} (xs : list A) : M S A :=
  match xs with
  | x :: _ => ret x
  | [] => raise (Exn IndexError "list index out of range")
  end.

Definition tuple_getitem0 {S A : Type} (xs : list A) : M S A :=
  match xs with
  | x :: _ => ret x
  | [] => raise (Exn IndexError "tuple index out of range")
  end.

(** [result[0][0]] *)
Definition first_cell {S : Type} (result : rows) : M S value :=
  row <- list_getitem0 result ;; tuple_getitem0 row.

(** ** setup.py

    [DatabaseSetup] is written against any object with [execute_query] and
    [execute_update]; the embedding takes them as parameters, with the
    console's [input].  What the code prints is not modelled; the
    expressions it evaluates to print are. *)

Section DatabaseSetup.

Context {S : Type}.
Variable db_execute_query : sql -> option params -> M S rows.
Variable db_execute_update : sql -> option params -> M S Z.
Variable input : M S string.

Definition _table_exists (table_name : string) : M S value :=
  result <- db_execute_query SelectTableExists (Some [VStr table_name]) ;;
  first_cell result.

Definition _constraint_exists (table_name constraint_name : string) : M S value :=
  result <- db_execute_query SelectConstraintExists
              (Some [VStr table_name; VStr constraint_name]) ;;
  first_cell result.

Definition _setup_pgvector : M S unit :=
  try_except
    (db_execute_update (CreateExtensionIfNotExists "vector") None ;;; ret tt)
    [ ([Exception_], fun e =>
         if contains "already exists" (lower (str e)) then ret tt else raise e) ].

(** The common shape of the five [_create_*] methods. *)
Definition create_table_if_absent (table : string) : M S unit :=
  present <- _table_exists table ;;
  if negb (truthy present)
  then db_execute_update (CreateTable table) None ;;; ret tt
  else ret tt.

Definition _create_analysis_registry : M S unit := create_table_if_absent "analysis_registry".
Definition _create_stg_rejects : M S unit := create_table_if_absent "stg_rejects".
Definition _create_insights_cache : M S unit := create_table_if_absent "insights_cache".
Definition _create_query_history : M S unit := create_table_if_absent "query_history".
Definition _create_embeddings : M S unit := create_table_if_absent "embeddings".

Definition foreign_keys : list (string * string * string) :=
  [ ("insights_cache", "analysis_id", "fk_insights_analysis");
    ("query_history", "analysis_id", "fk_query_analysis");
    ("embeddings", "analysis_id", "fk_embeddings_analysis") ].

(** One round of the loop of [_add_foreign_keys]. *)
Definition foreign_key_round (fk : string * string * string) : M S unit :=
  let '(table, column, constraint_name) := fk in
  present <- _constraint_exists table constraint_name ;;
  if negb (truthy present)
  then
    try_except
      (db_execute_update (AlterTableAddForeignKey table constraint_name column) None ;;;
       ret tt)
      [ ([Exception_], fun e =>
           if contains "already exists" (lower (str e)) then ret tt else raise e) ]
  else ret tt.

Definition _add_foreign_keys : M S unit :=
  for_each foreign_keys foreign_key_round.

Definition indexes_to_create : list (string * string * string) :=
  [ ("idx_analysis_registry_session", "analysis_registry", "session_id");
    ("idx_analysis_registry_status", "analysis_registry", "status");
    ("idx_stg_rejects_source", "stg_rejects", "source_name");
    ("idx_stg_rejects_timestamp", "stg_rejects", "rejected_at");
    ("idx_insights_cache_analysis", "insights_cache", "analysis_id");
    ("idx_insights_cache_type", "insights_cache", "insight_type");
    ("idx_query_history_analysis", "query_history", "analysis_id");
    ("idx_embeddings_analysis", "embeddings", "analysis_id");
    ("idx_embeddings_type", "embeddings", "content_type") ].

(** One round of the first loop of [_create_indexes].  Both branches of
    its handler only print: every failure of an index creation is
    swallowed. *)
Definition index_round (ix : string * string * string) : M S unit :=
  let '(index_name, table_name, column_name) := ix in
  try_except
    (db_execute_update (CreateIndexIfNotExists index_name table_name column_name) None ;;;
     ret tt)
    [ ([Exception_], fun e =>
         if contains "already exists" (lower (str e)) then ret tt else ret tt) ].

Definition _create_indexes : M S unit :=
  for_each indexes_to_create index_round ;;;
  try_except
    (db_execute_update CreateVectorIndexIfNotExists None ;;; ret tt)
    [ ([Exception_], fun e =>
         if contains "already exists" (lower (str e)) then ret tt
         else if contains "does not exist" (lower (str e))
                 && contains "vector_cosine_ops" (lower (str e)) then ret tt
         else ret tt) ].

Definition managed_tables : list string :=
  ["embeddings"; "query_history"; "insights_cache"; "stg_rejects"; "analysis_registry"].

Definition _drop_all_tables : M S unit :=
  response <- input ;;
  if negb (String.eqb (lower response) "yes") then ret tt
  else
    for_each managed_tables (fun table =>
      try_except
        (db_execute_update (DropTableIfExistsCascade table) None ;;; ret tt)
        [ ([Exception_], fun _ => ret tt) ]).

Definition setup_all (drop_existing : bool) : M S unit :=
  (if drop_existing then _drop_all_tables else ret tt) ;;;
  _setup_pgvector ;;;
  _create_analysis_registry ;;;
  _create_stg_rejects ;;;
  _create_insights_cache ;;;
  _create_query_history ;;;
  _create_embeddings ;;;
  _add_foreign_keys ;;;
  _create_indexes.

Definition required_tables : list string :=
  ["analysis_registry"; "stg_rejects"; "insights_cache"; "query_history"; "embeddings"].

(** One round of the loop of [verify_setup] over the required tables. *)
Definition verify_round (all_good : bool) (table : string) : M S bool :=
  present <- _table_exists table ;;
  if truthy present
  then
    try_except
      (count <- db_execute_query (SelectCount table) None ;;
       first_cell count ;;;
       ret all_good)
      [ ([Exception_], fun _ => ret false) ]
  else ret false.

Definition verify_setup : M S bool :=
  all_good <- for_fold required_tables true verify_round ;;
  try_except
    (result <- db_execute_query (SelectExtensionExists "vector") None ;;
     installed <- first_cell result ;;
     if truthy installed then ret tt else ret tt)
    [ ([Exception_], fun _ => ret tt) ] ;;;
  ret all_good.

End DatabaseSetup.

(** The extra options of [tests/test_database_connection.py]. *)
Definition example_options : keywords :=
  [("port", VInt 5433); ("connect_timeout", VInt 30)].

(** ** A database for the provisioner *)

(** Modelled from the spec: the database server is not part of the
    sources.  Sections 4.4 and 6 of the specification name the schema
    objects the provisioner manages (an extension, tables, foreign keys,
    indexes) and section 8 the answer of the existence query (true for a
    present table, false for an absent one); the handlers of [setup.py] name
    the failures the server answers a creation with ("already exists",
    "does not exist").  The catalog below is that part of a PostgreSQL
    schema, with the server's answer to each statement of [setup.py]: a
    [CREATE TABLE] of an existing table and an [ADD CONSTRAINT] of an
    existing constraint fail with an "already exists" error, the
    [IF NOT EXISTS] forms do nothing on an existing object, the [vector]
    type and its index method need the [vector] extension, and the extension
    can be created only where it is available on the server.  A statement is
    atomic and takes effect when it is executed: one that fails leaves the
    catalog as it was. *)
Record catalog : Type := Catalog {
  available_extensions : gset string;
  extensions : gset string;
  tables : gmap string Z;
  constraints : gmap (string * string) string;
  indexes : gmap string string
}.

Definition quoted (name : string) : string :=
  String (ascii_of_nat 34) name +:+ String (ascii_of_nat 34) EmptyString.

Definition has_extension (c : catalog) (ext : string) : bool :=
  bool_decide (ext ∈ extensions c).

Definition extension_available (c : catalog) (ext : string) : bool :=
  bool_decide (ext ∈ available_extensions c).

Definition has_table (c : catalog) (t : string) : bool :=
  bool_decide (is_Some (tables c !! t)).

Definition has_constraint (c : catalog) (t k : string) : bool :=
  bool_decide (is_Some (constraints c !! (t, k))).

Definition has_index (c : catalog) (i : string) : bool :=
  bool_decide (is_Some (indexes c !! i)).

Definition add_extension (ext : string) (c : catalog) : catalog :=
  {| available_extensions := available_extensions c;
     extensions := {[ ext ]} ∪ extensions c;
     tables := tables c;
     constraints := constraints c;
     indexes := indexes c |}.

Definition add_table (t : string) (c : catalog) : catalog :=
  {| available_extensions := available_extensions c;
     extensions := extensions c;
     tables := <[ t := 0 ]> (tables c);
     constraints := constraints c;
     indexes := indexes c |}.

Definition add_constraint (t k referenced : string) (c : catalog) : catalog :=
  {| available_extensions := available_extensions c;
     extensions := extensions c;
     tables := tables c;
     constraints := <[ (t, k) := referenced ]> (constraints c);
     indexes := indexes c |}.

Definition add_index (i t : string) (c : catalog) : catalog :=
  {| available_extensions := available_extensions c;
     extensions := extensions c;
     tables := tables c;
     constraints := constraints c;
     indexes := <[ i := t ]> (indexes c) |}.

(** [DROP TABLE ... CASCADE] removes the table, its constraints and
    indexes, and the foreign keys that refer to it. *)
Definition drop_table (t : string) (c : catalog) : catalog :=
  {| available_extensions := available_extensions c;
     extensions := extensions c;
     tables := delete t (tables c);
     constraints := filter (fun kv => fst (fst kv) ≠ t ∧ snd kv ≠ t) (constraints c);
     indexes := filter (fun kv => snd kv ≠ t) (indexes c) |}.

Definition undefined_table (t : string) : exn :=
  Exn ProgrammingError ("relation " +:+ quoted t +:+ " does not exist").

(** The result of a statement: the new catalog, the rows a cursor can
    fetch, if any, and the row count. *)
Definition pg_result : Type := catalog * option rows * Z.

Definition answer (c : catalog) (result : rows) : outcome pg_result :=
  Return (c, Some result, Z.of_nat (List.length result)).

Definition done_ddl (c : catalog) : outcome pg_result :=
  Return (c, None, -1).

Definition pg_exec (query : sql) (p : option params) (c : catalog) : outcome pg_result :=
  match query, p with
  | SelectTableExists, Some [VStr t] =>
      answer c [[VBool (has_table c t)]]
  | SelectConstraintExists, Some [VStr t; VStr k] =>
      answer c [[VBool (has_constraint c t k)]]
  | SelectExtensionExists ext, None =>
      answer c [[VBool (has_extension c ext)]]
  | SelectCount t, None =>
      match tables c !! t with
      | Some n => answer c [[VInt n]]
      | None => Raise (undefined_table t)
      end
  | CreateExtensionIfNotExists ext, None =>
      if has_extension c ext then done_ddl c
      else if extension_available c ext then done_ddl (add_extension ext c)
      else Raise (Exn OperationalError
                    ("could not open extension control file for " +:+ quoted ext))
  | CreateTable t, None =>
      if has_table c t then
        Raise (Exn ProgrammingError ("relation " +:+ quoted t +:+ " already exists"))
      else if String.eqb t "embeddings" && negb (has_extension c "vector") then
        Raise (Exn ProgrammingError ("type " +:+ quoted "vector" +:+ " does not exist"))
      else done_ddl (add_table t c)
  | AlterTableAddForeignKey t k _, None =>
      if negb (has_table c t) then Raise (undefined_table t)
      else if negb (has_table c "analysis_registry") then
        Raise (undefined_table "analysis_registry")
      else if has_constraint c t k then
        Raise (Exn ProgrammingError
                 ("constraint " +:+ quoted k +:+ " for relation " +:+ quoted t
                  +:+ " already exists"))
      else done_ddl (add_constraint t k "analysis_registry" c)
  | CreateIndexIfNotExists i t _, None =>
      if has_index c i then done_ddl c
      else if negb (has_table c t) then Raise (undefined_table t)
      else done_ddl (add_index i t c)
  | CreateVectorIndexIfNotExists, None =>
      if has_index c "idx_embeddings_vector" then done_ddl c
      else if negb (has_table c "embeddings") then Raise (undefined_table "embeddings")
      else if negb (has_extension c "vector") then
        Raise (Exn ProgrammingError
                 ("access method " +:+ quoted "ivfflat" +:+ " does not exist"))
      else done_ddl (add_index "idx_embeddings_vector" "embeddings" c)
  | DropTableIfExistsCascade t, None => done_ddl (drop_table t c)
  | _, _ =>
      Raise (Exn ProgrammingError "statement or parameters outside the catalog model")
  end.

(** The driver state: the catalog, and what the cursor holds after the last
    statement. *)
Record pg : Type := Pg {
  cat : catalog;
  fetched : option rows;
  affected : Z
}.

(** A batch is atomic as well: it stops at the first failing row and
    leaves the catalog as it was. *)
Fixpoint pg_exec_many (query : sql) (params_list : list params) (c : catalog)
  : outcome pg_result :=
  match params_list with
  | [] => Return (c, None, 0)
  | p :: rest =>
      match pg_exec query (Some p) c with
      | Raise e => Raise e
      | Return (c', _, n) =>
          match pg_exec_many query rest c' with
          | Raise e => Raise e
          | Return (c'', _, m) => Return (c'', None, Z.max n 0 + m)
          end
      end
  end.

Definition pg_run (r : outcome pg_result) (w : pg) : outcome unit * pg :=
  match r with
  | Return (c, result, n) => (Return tt, Pg c result n)
  | Raise e => (Raise e, Pg (cat w) None (-1))
  end.

(** A PostgreSQL server that is reachable and a pool that always has a
    connection to lend: the provisioner is the only caller and holds at most
    one connection at a time. *)
Definition postgres : Driver pg := {|
  pool_getconn := fun w => (Return 0%nat, w);
  pool_putconn := fun _ w => (Return tt, w);
  pool_closeall := fun w => (Return tt, w);
  conn_cursor := fun _ w => (Return 0%nat, Pg (cat w) None (-1));
  conn_commit := fun _ w => (Return tt, w);
  conn_rollback := fun _ w => (Return tt, w);
  cur_execute := fun _ query p w => pg_run (pg_exec query p (cat w)) w;
  cur_executemany := fun _ query params_list w =>
    pg_run (pg_exec_many query params_list (cat w)) w;
  cur_fetchall := fun _ w =>
    match fetched w with
    | Some result => (Return result, w)
    | None => (Raise (Exn ProgrammingError "no results to fetch"), w)
    end;
  cur_rowcount := fun _ w => affected w;
  cur_close := fun _ w => (Return tt, w)
|}.

(** The provisioner on that server, through [DatabaseConnection], run
    without a terminal: [input] meets the end of its input. *)
Definition no_terminal : M (world pg) string :=
  raise (Exn EOFError "EOF when reading a line").

Definition provision (drop_existing : bool) : M (world pg) unit :=
  setup_all (execute_query postgres) (execute_update postgres) no_terminal drop_existing.

(** The schema a world holds. *)
Definition schema (w : world pg) : catalog := cat (driver_state w).

(** The statements of a trace that create a table or add a constraint. *)
Definition is_creation (ev : event) : bool :=
  match ev with
  | Execute _ (CreateTable _) _ _ => true
  | Execute _ (AlterTableAddForeignKey _ _ _) _ _ => true
  | _ => false
  end.

(** A fresh database on a server that offers the [vector] extension. *)
Definition fresh_catalog : catalog :=
  {| available_extensions := {[ "vector" ]}; extensions := ∅;
     tables := ∅; constraints := ∅; indexes := ∅ |}.

Definition fresh_world : world pg := World (Pg fresh_catalog None (-1)) [].

(** The creation statements a world has seen. *)
Definition creations (w : world pg) : list event := List.filter is_creation (trace w).

Definition has_foreign_key (c : catalog) (fk : string * string * string) : Prop :=
  has_constraint c (fst (fst fk)) (snd fk) = true.

Definition has_index_of (c : catalog) (ix : string * string * string) : Prop :=
  has_index c (fst (fst ix)) = true.

Definition has_table_of (c : catalog) (ix : string * string * string) : Prop :=
  has_table c (snd (fst ix)) = true.

(** What the provisioner sets up: the extension, the five tables, the
    three foreign keys, the nine ordinary indexes and the vector index. *)
Definition provisioned (c : catalog) : Prop :=
  has_extension c "vector" = true
  /\ Forall (fun t => has_table c t = true) required_tables
  /\ Forall (has_foreign_key c) foreign_keys
  /\ Forall (has_index_of c) indexes_to_create
  /\ has_index c "idx_embeddings_vector" = true.

(** [c'] holds every object that [c] holds. *)
Definition covers (c c' : catalog) : Prop :=
  (forall ext, has_extension c ext = true -> has_extension c' ext = true)
  /\ (forall t, has_table c t = true -> has_table c' t = true)
  /\ (forall t k, has_constraint c t k = true -> has_constraint c' t k = true)
  /\ (forall i, has_index c i = true -> has_index c' i = true).

(** Neither the schema nor the record of creation statements has moved. *)
Definition same_schema (w w' : world pg) : Prop :=
  schema w' = schema w /\ creations w' = creations w.

(** A fact about catalogs that growth keeps. *)
Definition monotone (Q : catalog -> Prop) : Prop :=
  forall c c', covers c c' -> Q c -> Q c'.

(** A step of the provisioner that only adds to the schema, that
    establishes [Q] when it returns from a schema with [P], and that
    returns without touching a schema in which [Q] holds already. *)
Definition establishes (m : M (world pg) unit) (P Q : catalog -> Prop) : Prop :=
  forall w, exists r w',
    m w = (r, w')
    /\ covers (schema w) (schema w')
    /\ (P (schema w) -> r = Return tt -> Q (schema w'))
    /\ (Q (schema w) -> r = Return tt /\ same_schema w w').

(** A step that returns from every schema with [P]. *)
Definition succeeds (m : M (world pg) unit) (P : catalog -> Prop) : Prop :=
  forall w, P (schema w) -> exists w', m w = (Return tt, w').

(** What [execute_update] raises for the extension that cannot be created. *)
Definition pgvector_unavailable : exn :=
  Exn Exception_ "Database connection failed during update, try again".

(** ** What a database answers to the verification

    [verify_setup] only reads.  Its result is stated against the answers of
    a database that answers the two questions about a table the same way
    throughout the verification. *)

(** The first cell of an answer, when the query has returned one. *)
Definition first_cell_of (r : outcome rows) : option value :=
  match r with
  | Return ((v :: _) :: _) => Some v
  | _ => None
  end.






(** ** More about the calls of one method *)

Definition is_getconn (ev : event) : bool :=
  match ev with Getconn _ => true | _ => false end.

(** The driver calls of one method are bracketed: none at all, or one
    [getconn] first and no second one, and then at most one [putconn],
    of the connection that [getconn] has returned. *)
Definition bracketed (evs : list event) : Prop :=
  evs = []
  \/ exists r rest,
       evs = Getconn r :: rest
       /\ List.filter is_getconn rest = []
       /\ (List.filter is_putconn rest = []
           \/ exists c res, r = Return c /\ List.filter is_putconn rest = [Putconn c res]).

(** Scripts in which the last calls of a method fail. *)
Definition close_fails (e : exn) : script := {|
  on_getconn := Return 1%nat;
  on_cursor := Return 2%nat;
  on_execute := Return tt;
  on_fetchall := Return [[VInt 7]];
  on_rowcount := 1;
  on_close := Raise e;
  on_commit := Return tt;
  on_rollback := Return tt;
  on_putconn := Return tt
|}.

Definition putconn_fails (e : exn) : script := {|
  on_getconn := Return 1%nat;
  on_cursor := Return 2%nat;
  on_execute := Return tt;
  on_fetchall := Return [[VInt 7]];
  on_rowcount := 1;
  on_close := Return tt;
  on_commit := Return tt;
  on_rollback := Return tt;
  on_putconn := Raise e
|}.

Definition getconn_fails (e : exn) : script := {|
  on_getconn := Raise e;
  on_cursor := Return 2%nat;
  on_execute := Return tt;
  on_fetchall := Return [];
  on_rowcount := 0;
  on_close := Return tt;
  on_commit := Return tt;
  on_rollback := Return tt;
  on_putconn := Return tt
|}.

Definition data_failure : exn := Exn DataError "invalid input syntax for type integer".

Definition arity_failure : exn :=
  Exn TypeError "not all arguments converted during string formatting".

Definition pool_exhausted : exn := Exn PoolError "connection pool exhausted".

Definition connection_refused : exn :=
  Exn OperationalError "could not connect to server: Connection refused".

(** ** A record of what the provisioner asks

    [DatabaseSetup] over any database object and console, with a record of
    the requests it makes of them, in order. *)
Inductive request : Type :=
| Query (query : sql) (p : option params)
| Update (query : sql) (p : option params)
| Prompt.

Section Recorded.

Context {S : Type}.
Variable db_execute_query : sql -> option params -> M S rows.
Variable db_execute_update : sql -> option params -> M S Z.
Variable input : M S string.

Definition recorded {A : Type} (m : M S A) (req : request) : M (S * list request) A :=
  fun sl => match m (fst sl) with (r, s') => (r, (s', snd sl ++ [req])) end.

Definition recorded_query (query : sql) (p : option params) : M (S * list request) rows :=
  recorded (db_execute_query query p) (Query query p).

Definition recorded_update (query : sql) (p : option params) : M (S * list request) Z :=
  recorded (db_execute_update query p) (Update query p).

Definition recorded_input : M (S * list request) string :=
  recorded input Prompt.

End Recorded.

(** The requests that change the set of tables or constraints. *)
Definition is_drop_request (req : request) : bool :=
  match req with
  | Update (DropTableIfExistsCascade _) _ => true
  | _ => false
  end.

Definition is_prompt (req : request) : bool :=
  match req with Prompt => true | _ => false end.

Definition is_creation_request (req : request) : bool :=
  match req with
  | Update (CreateTable _) _ => true
  | Update (AlterTableAddForeignKey _ _ _) _ => true
  | _ => false
  end.

(** The statements of [_create_indexes] and of [_drop_all_tables], in the
    order of the source. *)
Definition index_requests : list request :=
  map (fun ix => Update (CreateIndexIfNotExists (fst (fst ix)) (snd (fst ix)) (snd ix)) None)
    indexes_to_create
  ++ [Update CreateVectorIndexIfNotExists None].

Definition drop_requests : list request :=
  map (fun t => Update (DropTableIfExistsCascade t) None) managed_tables.

(** The requests of a computation of the provisioner all satisfy [P]. *)
Definition issues_only {S A : Type} (P : request -> Prop) (m : M (S * list request) A) : Prop :=
  forall sl, exists l, snd (snd (m sl)) = snd sl ++ l /\ Forall P l.

(** A database that fails every update with [e], answers every query with
    [answer], and a console that answers [response]. *)
Definition failing_update (e : exn) : sql -> option params -> M unit Z :=
  fun _ _ s => (Raise e, s).

Definition constant_query (answer : rows) : sql -> option params -> M unit rows :=
  fun _ _ s => (Return answer, s).

Definition console (response : string) : M unit string :=
  fun s => (Return response, s).


Definition is_exists_query (req : request) : bool :=
  match req with
  | Query SelectTableExists _ => true
  | _ => false
  end.

(** A query that finds nothing, and one that finds everything. *)
Definition nothing_found : rows := [[VBool false]].
Definition everything_found : rows := [[VBool true]].

Definition duplicate_object : exn :=
  Exn Exception_ "Query error: constraint fk_insights_analysis already exists".

Definition permission_denied : exn :=
  Exn Exception_ "Query error: permission denied for schema public".

(** The two existence queries of the provisioner, for a table and for a
    constraint. *)
Definition is_existence_query (query : sql) : bool :=
  match query with
  | SelectTableExists | SelectConstraintExists => true
  | _ => false
  end.

(** The database finds every table and constraint it is asked about;
    nothing is said of its other queries. *)
Definition finds_everything {S : Type} (db_execute_query : sql -> option params -> M S rows)
  : Prop :=
  forall query p s, is_existence_query query = true ->
    exists v row more s',
      db_execute_query query p s = (Return ((v :: row) :: more), s') /\ truthy v = true.

(** A database that answers the existence queries with [answer] and fails
    every other query, and one that accepts every update. *)
Definition existence_query (answer : rows) : sql -> option params -> M unit rows :=
  fun query _ s =>
    if is_existence_query query then (Return answer, s)
    else (Raise (Exn Exception_ "Query error: permission denied for table"), s).

Definition accepting_update : sql -> option params -> M unit Z :=
  fun _ _ s => (Return 0, s).


(** The existence queries of [verify_setup], in the order of the source. *)
Definition exists_queries : list request :=
  map (fun t => Query SelectTableExists (Some [VStr t])) required_tables.

(** A database in which only the first required table is missing. *)
Definition one_table_missing (query : sql) (p : option params) : M unit rows :=
  fun s =>
    match query, p with
    | SelectTableExists, Some [VStr t] =>
        (Return [[VBool (negb (String.eqb t "analysis_registry"))]], s)
    | SelectTableExists, _ => (Return [[VBool true]], s)
    | SelectCount _, _ => (Return [[VInt 0]], s)
    | _, _ => (Raise (Exn Exception_ "Unexpected database error: connection lost"), s)
    end.

(** * Properties *)

(** ** Symbolic execution of the embedded code *)

Ltac unfold_py :=
  unfold execute_query, execute_update, execute_many, _get_connection_and_cursor,
    rollback_if_connection, putconn_if_connection,
    with_local, try_finally, try_except, lift, get_local, set_local, bind, ret, raise,
    getconn, putconn, cursor_of, commit, rollback, execute, executemany, fetchall,
    rowcount, close_cursor, call in *.

Ltac simpl_py :=
  cbn [dispatch existsb fst snd driver_state trace raise ret bind orb] in *.

(** Case analysis on the outcome of the next driver call or handler test. *)
Ltac case_step :=
  match goal with
  | H : context [match ?x with _ => _ end] |- _ =>
      lazymatch x with
      | context [match _ with _ => _ end] => fail
      | _ => destruct x eqn:?
      end
  | |- context [match ?x with _ => _ end] =>
      lazymatch x with
      | context [match _ with _ => _ end] => fail
      | _ => destruct x eqn:?
      end
  end.

Ltac run_py := unfold_py; simpl_py; repeat (case_step; simpl_py; try discriminate).

(** The events a finished call has appended to the trace. *)
Ltac read_trace :=
  repeat match goal with
    | H : (_, _) = (_, _) |- _ => inversion H; clear H; subst
    | u : unit |- _ => destruct u
    end;
  simpl_py; rewrite <- ?app_assoc; cbn [app].

(** Every modelled exception is an [Exception]. *)
Lemma isinstance_Exception (e : exn) : isinstance e Exception_ = true.
Proof. destruct e as [c msg]; destruct c; reflexivity. Qed.

(** ** The statement executor *)

(** C3: a batch with an empty parameter list fails with the
    InvalidParameters error and does not touch the driver at all: the world
    after the call is the world before it, so no connection is acquired, no
    rollback is issued and no statement is executed. *)
Theorem execute_many_empty_rejected (W : Type) (self : Driver W) (query : sql) (w : world W) :
  execute_many self query [] w =
    (Raise (Exn Exception_ "Invalid parameters format: params_list cannot be empty"), w)
  /\ kind (Exn Exception_ "Invalid parameters format: params_list cannot be empty")
     = Some InvalidParameters.
Proof.
  split; [ | reflexivity ].
  unfold_py. reflexivity.
Qed.

(** C6: a successful update acquires a connection and a cursor, executes
    exactly one statement, commits after it, returns the row count of that
    statement, closes the cursor and releases the connection once, last. *)
Theorem execute_update_success (W : Type) (self : Driver W) (query : sql)
    (p : option params) (w w' : world W) (n : Z) :
  execute_update self query p w = (Return n, w') ->
  exists c cur,
    trace w' = trace w ++
      [ Getconn (Return c); Cursor c (Return cur);
        Execute cur query p (Return tt); Commit c (Return tt);
        Rowcount cur n; Close cur (Return tt); Putconn c (Return tt) ].
Proof.
  intros H. run_py; try congruence.
  read_trace. eauto.
Qed.

Lemma execute_update_success_witness :
  exists c cur,
    trace (snd (execute_update (scripted (all_ok [] 5)) (SqlText "UPDATE users SET active = true")
                  None start)) =
      trace start ++
      [ Getconn (Return c); Cursor c (Return cur);
        Execute cur (SqlText "UPDATE users SET active = true") None (Return tt);
        Commit c (Return tt); Rowcount cur 5; Close cur (Return tt);
        Putconn c (Return tt) ].
Proof.
  apply (execute_update_success unit (scripted (all_ok [] 5))
           (SqlText "UPDATE users SET active = true") None start _ 5).
  reflexivity.
Defined.

(** C7: a query never commits and never rolls back, whatever happens,
    and a successful query executes the statement, fetches all rows and
    returns exactly the rows it fetched. *)
Theorem execute_query_reads_only (W : Type) (self : Driver W) (query : sql)
    (p : option params) (w w' : world W) (r : outcome rows) :
  execute_query self query p w = (r, w') ->
  (exists evs, trace w' = trace w ++ evs /\ forallb (fun ev => negb (is_transactional ev)) evs = true)
  /\ (forall result, r = Return result ->
      exists c cur,
        trace w' = trace w ++
          [ Getconn (Return c); Cursor c (Return cur);
            Execute cur query p (Return tt); Fetchall cur (Return result);
            Close cur (Return tt); Putconn c (Return tt) ]).
Proof.
  intros H. run_py; read_trace.
  all: split; [ eexists; split; [ reflexivity | reflexivity ] | ].
  all: intros result Hr; try discriminate Hr.
  all: inversion Hr; subst; eauto.
Qed.

Lemma execute_query_reads_only_witness :
  (exists evs,
      trace (snd (execute_query (scripted (all_ok [[VInt 1]] 0)) (SqlText "SELECT 1") None start))
      = trace start ++ evs
      /\ forallb (fun ev => negb (is_transactional ev)) evs = true)
  /\ (forall result, Return [[VInt 1]] = Return result ->
      exists c cur,
        trace (snd (execute_query (scripted (all_ok [[VInt 1]] 0)) (SqlText "SELECT 1") None start))
        = trace start ++
          [ Getconn (Return c); Cursor c (Return cur);
            Execute cur (SqlText "SELECT 1") None (Return tt); Fetchall cur (Return result);
            Close cur (Return tt); Putconn c (Return tt) ]).
Proof.
  apply (execute_query_reads_only unit (scripted (all_ok [[VInt 1]] 0))
           (SqlText "SELECT 1") None start).
  reflexivity.
Defined.


Lemma helper_returns (W : Type) (self : Driver W) (w w1 : world W) (c : conn) (cur : cursor) :
  _get_connection_and_cursor self w = (Return (c, cur), w1) ->
  exists d1 d2,
    pool_getconn self (driver_state w) = (Return c, d1)
    /\ conn_cursor self c d1 = (Return cur, d2)
    /\ w1 = World d2 (trace w ++ [Getconn (Return c); Cursor c (Return cur)]).
Proof.
  intros H. run_py; read_trace. eauto.
Qed.

Ltac close_release :=
  match goal with
  | |- exists evs res, ?t ++ ?l = ?t ++ evs ++ [Putconn ?c res] /\ _ =>
      exists (removelast l); eexists; split; [ cbn; reflexivity | reflexivity ]
  end.

(** Symbolic execution from the point where the helper has returned. *)
Ltac run_acquired Hacq H :=
  apply helper_returns in Hacq as (?d & ?d & ?Hg & ?Hc & ->);
  unfold_py; simpl_py;
  match goal with
  | Hg : pool_getconn _ _ = _ |- _ => rewrite Hg in H
  end; simpl_py;
  match goal with
  | Hc : conn_cursor _ _ _ = _ |- _ => rewrite Hc in H
  end; simpl_py;
  repeat (case_step; simpl_py; try discriminate).

(** Once the helper has returned a connection, each of the three methods
    releases it exactly once, after every other driver call, on every
    path. *)
Lemma execute_query_releases (W : Type) (self : Driver W) (query : sql)
    (p : option params) (w w1 w' : world W) (c : conn) (cur : cursor) (r : outcome rows) :
  _get_connection_and_cursor self w = (Return (c, cur), w1) ->
  execute_query self query p w = (r, w') ->
  released_once c (trace w) (trace w').
Proof.
  intros Hacq H. unfold released_once. run_acquired Hacq H.
  all: read_trace; close_release.
Qed.

Lemma execute_update_releases (W : Type) (self : Driver W) (query : sql)
    (p : option params) (w w1 w' : world W) (c : conn) (cur : cursor) (r : outcome Z) :
  _get_connection_and_cursor self w = (Return (c, cur), w1) ->
  execute_update self query p w = (r, w') ->
  released_once c (trace w) (trace w').
Proof.
  intros Hacq H. unfold released_once. run_acquired Hacq H.
  all: read_trace; close_release.
Qed.

Lemma execute_many_releases (W : Type) (self : Driver W) (query : sql)
    (p : params) (rest : list params) (w w1 w' : world W) (c : conn) (cur : cursor)
    (r : outcome Z) :
  _get_connection_and_cursor self w = (Return (c, cur), w1) ->
  execute_many self query (p :: rest) w = (r, w') ->
  released_once c (trace w) (trace w').
Proof.
  intros Hacq H. unfold released_once. run_acquired Hacq H.
  all: read_trace; close_release.
Qed.

(** Case analysis on the outcome of the next driver call only. *)
Ltac case_call :=
  match goal with
  | H : context [match ?x with _ => _ end] |- _ =>
      lazymatch x with
      | context [match _ with _ => _ end] => fail
      | _ => lazymatch type of x with bool => fail | _ => destruct x eqn:? end
      end
  | |- context [match ?x with _ => _ end] =>
      lazymatch x with
      | context [match _ with _ => _ end] => fail
      | _ => lazymatch type of x with bool => fail | _ => destruct x eqn:? end
      end
  end.

(** *** Release of the connection *)

(** When [connection.cursor()] fails after [getconn] has returned, the
    helper raises before [connection] is assigned in the caller: none of the
    three methods rolls back or releases, whatever the driver. *)
Lemma cursor_failure_skips_release (W : Type) (self : Driver W) (query : sql)
    (p : option params) (row : params) (more : list params) (w : world W)
    (c : conn) (e : exn) (d1 d2 : W) :
  pool_getconn self (driver_state w) = (Return c, d1) ->
  conn_cursor self c d1 = (Raise e, d2) ->
  let calls := trace w ++ [Getconn (Return c); Cursor c (Raise e)] in
  trace (snd (execute_query self query p w)) = calls
  /\ trace (snd (execute_update self query p w)) = calls
  /\ trace (snd (execute_many self query (row :: more) w)) = calls.
Proof.
  intros Hg Hc calls. subst calls.
  unfold_py; simpl_py. rewrite Hg; simpl_py. rewrite Hc; simpl_py.
  destruct e as [cls msg]; destruct cls; cbn; rewrite <- ?app_assoc; auto.
Qed.

(** C1 (the code departs from it): a connection that [getconn] has handed
    out is not released when the cursor cannot be opened.  With a driver
    whose [connection.cursor()] raises [InterfaceError], each of the three
    methods makes exactly the two calls [getconn] and [cursor] and never
    calls [putconn]. *)
Theorem cursor_failure_leaks_connection :
  let e := Exn InterfaceError "connection already closed" in
  let driver := scripted (cursor_fails e) in
  let calls := [Getconn (Return 1%nat); Cursor 1%nat (Raise e)] in
  trace (snd (execute_query driver (SqlText "SELECT 1") None start)) = calls
  /\ trace (snd (execute_update driver (SqlText "DELETE FROM t") None start)) = calls
  /\ trace (snd (execute_many driver (SqlText "INSERT INTO t VALUES (%s)") [[VInt 1]] start))
     = calls
  /\ List.filter is_putconn calls = [].
Proof. repeat split. Qed.

(** What the leak costs: on the pool of the constructor, ten queries whose
    cursor cannot be opened leave ten connections outstanding and none in
    use, and the eleventh query finds the pool exhausted; after ten
    queries that succeed the pool lends again. *)
Lemma leaked_connections_exhaust_pool :
  let e := Exn InterfaceError "connection already closed" in
  let fresh := World (ThreadedConnectionPool 1 10 ∅) [] in
  let leaky := query_repeatedly (cursor_fails e) 10 fresh in
  let sound := query_repeatedly (all_ok [] 0) 10 fresh in
  outstanding (driver_state leaky) = 10%nat
  /\ List.filter is_putconn (trace leaky) = []
  /\ fst (execute_query (pooled (all_ok [] 0)) (SqlText "SELECT 1") None leaky)
     = Raise (Exn Exception_ "Unexpected database error: Connection pool exhausted")
  /\ outstanding (driver_state sound) = 0%nat
  /\ fst (execute_query (pooled (all_ok [] 0)) (SqlText "SELECT 1") None sound) = Return [].
Proof. vm_compute. repeat split. Qed.

(** *** Rollback and classification in the mutating methods *)

(** A failure of the statement that no [except] clause of [execute_update]
    names: the connection is released without a rollback and the failure
    leaves the method as it came from the driver. *)
Lemma update_uncategorised_failure (W : Type) (self : Driver W) (query : sql)
    (p : option params) (w : world W) (c : conn) (cur : cursor) (e : exn)
    (d1 d2 d3 d4 : W) :
  pool_getconn self (driver_state w) = (Return c, d1) ->
  conn_cursor self c d1 = (Return cur, d2) ->
  cur_execute self cur query p d2 = (Raise e, d3) ->
  pool_putconn self c d3 = (Return tt, d4) ->
  update_categorised e = false ->
  execute_update self query p w =
    (Raise e,
     World d4 (trace w ++ [ Getconn (Return c); Cursor c (Return cur);
                            Execute cur query p (Raise e); Putconn c (Return tt) ])).
Proof.
  intros Hg Hc He Hp Hcat.
  unfold_py; simpl_py. rewrite Hg; simpl_py. rewrite Hc; simpl_py. rewrite He; simpl_py.
  destruct e as [cls msg]; destruct cls; try discriminate Hcat.
  all: cbn; rewrite Hp; cbn; rewrite <- ?app_assoc; reflexivity.
Qed.

Lemma batch_uncategorised_failure (W : Type) (self : Driver W) (query : sql)
    (row : params) (more : list params) (w : world W) (c : conn) (cur : cursor) (e : exn)
    (d1 d2 d3 d4 : W) :
  pool_getconn self (driver_state w) = (Return c, d1) ->
  conn_cursor self c d1 = (Return cur, d2) ->
  cur_executemany self cur query (row :: more) d2 = (Raise e, d3) ->
  pool_putconn self c d3 = (Return tt, d4) ->
  batch_categorised e = false ->
  execute_many self query (row :: more) w =
    (Raise e,
     World d4 (trace w ++ [ Getconn (Return c); Cursor c (Return cur);
                            Executemany cur query (row :: more) (Raise e);
                            Putconn c (Return tt) ])).
Proof.
  intros Hg Hc He Hp Hcat.
  unfold_py; simpl_py. rewrite Hg; simpl_py. rewrite Hc; simpl_py. rewrite He; simpl_py.
  destruct e as [cls msg]; destruct cls; try discriminate Hcat.
  all: cbn; rewrite Hp; cbn; rewrite <- ?app_assoc; reflexivity.
Qed.

(** What of C2 the code does: no rollback when the acquisition fails, and a
    rollback before the release when the statement fails in one of the
    categories the method names. *)
Lemma acquisition_failure_no_rollback (W : Type) (self : Driver W) (query : sql)
    (p : option params) (row : params) (more : list params) (w : world W)
    (e : exn) (d : W) :
  pool_getconn self (driver_state w) = (Raise e, d) ->
  trace (snd (execute_update self query p w)) = trace w ++ [Getconn (Raise e)]
  /\ trace (snd (execute_many self query (row :: more) w)) = trace w ++ [Getconn (Raise e)].
Proof.
  intros Hg. unfold_py; simpl_py. rewrite Hg; simpl_py.
  destruct e as [cls msg]; destruct cls; cbn; auto.
Qed.

Lemma update_categorised_failure_rolls_back (W : Type) (self : Driver W) (query : sql)
    (p : option params) (w : world W) (c : conn) (cur : cursor) (e : exn)
    (r1 r2 : outcome unit) (d1 d2 d3 d4 d5 : W) :
  pool_getconn self (driver_state w) = (Return c, d1) ->
  conn_cursor self c d1 = (Return cur, d2) ->
  cur_execute self cur query p d2 = (Raise e, d3) ->
  conn_rollback self c d3 = (r1, d4) ->
  pool_putconn self c d4 = (r2, d5) ->
  update_categorised e = true ->
  isinstance e PoolError = false ->
  trace (snd (execute_update self query p w)) =
    trace w ++ [ Getconn (Return c); Cursor c (Return cur); Execute cur query p (Raise e);
                 Rollback c r1; Putconn c r2 ].
Proof.
  intros Hg Hc He Hr Hp Hcat Hpool.
  unfold_py; simpl_py. rewrite Hg; simpl_py. rewrite Hc; simpl_py. rewrite He; simpl_py.
  destruct e as [cls msg]; destruct cls; try discriminate Hcat; try discriminate Hpool.
  all: cbn; rewrite Hr; destruct r1; cbn; rewrite Hp; destruct r2; cbn;
    rewrite <- ?app_assoc; reflexivity.
Qed.

Lemma batch_categorised_failure_rolls_back (W : Type) (self : Driver W) (query : sql)
    (row : params) (more : list params) (w : world W) (c : conn) (cur : cursor) (e : exn)
    (r1 r2 : outcome unit) (d1 d2 d3 d4 d5 : W) :
  pool_getconn self (driver_state w) = (Return c, d1) ->
  conn_cursor self c d1 = (Return cur, d2) ->
  cur_executemany self cur query (row :: more) d2 = (Raise e, d3) ->
  conn_rollback self c d3 = (r1, d4) ->
  pool_putconn self c d4 = (r2, d5) ->
  batch_categorised e = true ->
  isinstance e PoolError = false ->
  trace (snd (execute_many self query (row :: more) w)) =
    trace w ++ [ Getconn (Return c); Cursor c (Return cur);
                 Executemany cur query (row :: more) (Raise e);
                 Rollback c r1; Putconn c r2 ].
Proof.
  intros Hg Hc He Hr Hp Hcat Hpool.
  unfold_py; simpl_py. rewrite Hg; simpl_py. rewrite Hc; simpl_py. rewrite He; simpl_py.
  destruct e as [cls msg]; destruct cls; try discriminate Hcat; try discriminate Hpool.
  all: cbn; rewrite Hr; destruct r1; cbn; rewrite Hp; destruct r2; cbn;
    rewrite <- ?app_assoc; reflexivity.
Qed.

(** C2 (the code departs from it): a mutating call that fails after the
    connection was acquired is not always rolled back.  When the statement
    fails with [InternalError], which no clause of [execute_update] or
    [execute_many] names, the connection goes back to the pool with no
    rollback; [execute_update] does the same for the [TypeError] that
    [execute_many] does roll back. *)
Theorem uncategorised_failure_skips_rollback :
  let e := Exn InternalError "unexpected state" in
  let t := Exn TypeError "not all arguments converted during string formatting" in
  let q := SqlText "INSERT INTO users VALUES (%s)" in
  let update := trace (snd (execute_update (scripted (execute_fails e)) q (Some [VInt 1]) start)) in
  let batch := trace (snd (execute_many (scripted (execute_fails e)) q [[VInt 1]] start)) in
  let update_t := trace (snd (execute_update (scripted (execute_fails t)) q (Some [VInt 1]) start)) in
  let batch_t := trace (snd (execute_many (scripted (execute_fails t)) q [[VInt 1]] start)) in
  update = [ Getconn (Return 1%nat); Cursor 1%nat (Return 2%nat);
             Execute 2%nat q (Some [VInt 1]) (Raise e); Putconn 1%nat (Return tt) ]
  /\ batch = [ Getconn (Return 1%nat); Cursor 1%nat (Return 2%nat);
               Executemany 2%nat q [[VInt 1]] (Raise e); Putconn 1%nat (Return tt) ]
  /\ update_t = [ Getconn (Return 1%nat); Cursor 1%nat (Return 2%nat);
                  Execute 2%nat q (Some [VInt 1]) (Raise t); Putconn 1%nat (Return tt) ]
  /\ batch_t = [ Getconn (Return 1%nat); Cursor 1%nat (Return 2%nat);
                 Executemany 2%nat q [[VInt 1]] (Raise t);
                 Rollback 1%nat (Return tt); Putconn 1%nat (Return tt) ].
Proof. repeat split. Qed.

(** C4 (the code departs from it): [execute_update] and [execute_many]
    have no catch-all clause.  A driver failure outside their categories
    leaves them unclassified, as the driver raised it, where [execute_query]
    re-raises the same failure as an Unexpected error with its text. *)
Theorem uncategorised_failure_escapes_unclassified :
  let e := Exn InternalError "unexpected state" in
  let q := SqlText "INSERT INTO users VALUES (%s)" in
  fst (execute_update (scripted (execute_fails e)) q (Some [VInt 1]) start) = Raise e
  /\ fst (execute_many (scripted (execute_fails e)) q [[VInt 1]] start) = Raise e
  /\ kind e = None
  /\ fst (execute_query (scripted (execute_fails e)) q (Some [VInt 1]) start)
     = Raise (Exn Exception_ "Unexpected database error: unexpected state")
  /\ kind (Exn Exception_ "Unexpected database error: unexpected state") = Some Unexpected.
Proof. repeat split. Qed.

(** *** The error mapping of a read query *)

(** C5, as the code has it: when the statement of a query fails on an
    acquired connection and cursor (in [execute], [fetchall] or [close]) and
    the release succeeds, the call raises an [Exception] whose kind is
    ConnectionFailure for a connection-level failure, QueryError for
    malformed SQL, ConstraintViolation for an integrity failure, the last
    two with the original text, and Unexpected with the original text for
    every other failure of the driver; a [PoolError] met there is raised as
    PoolExhausted. *)
Theorem execute_query_failure_mapping (W : Type) (self : Driver W) (query : sql)
    (p : option params) (w w1 w2 : world W) (c : conn) (cur : cursor) (e : exn) (d : W) :
  _get_connection_and_cursor self w = (Return (c, cur), w1) ->
  query_statement self cur query p w1 = (Raise e, w2) ->
  pool_putconn self c (driver_state w2) = (Return tt, d) ->
  exists x,
    fst (execute_query self query p w) = Raise x
    /\ exn_cls x = Exception_
    /\ (isinstance e OperationalError = true -> kind x = Some ConnectionFailure)
    /\ (isinstance e ProgrammingError = true ->
        str x = "Query error: " +:+ str e /\ kind x = Some QueryError)
    /\ (isinstance e IntegrityError = true ->
        str x = "Data Constraint violation: " +:+ str e /\ kind x = Some ConstraintViolation)
    /\ (isinstance e PoolError = true -> kind x = Some PoolExhausted)
    /\ (isinstance e OperationalError = false ->
        isinstance e ProgrammingError = false ->
        isinstance e IntegrityError = false ->
        isinstance e PoolError = false ->
        str x = "Unexpected database error: " +:+ str e /\ kind x = Some Unexpected).
Proof.
  intros Hacq Hs Hput.
  apply helper_returns in Hacq as (d1 & d2 & Hg & Hc & ->).
  unfold query_statement in Hs. unfold_py. simpl_py.
  rewrite Hg; simpl_py; rewrite Hc; simpl_py.
  repeat (case_call; simpl_py; try discriminate).
  all: read_trace.
  all: destruct e as [cls msg]; destruct cls.
  all: cbn; rewrite Hput; cbn.
  all: eexists; split; [ reflexivity | ].
  all: repeat split; intros; try discriminate; reflexivity.
Qed.

Lemma execute_query_failure_mapping_witness :
  exists x,
    fst (execute_query (scripted (execute_fails integrity_failure)) (SqlText "SELECT 1") None start)
    = Raise x
    /\ exn_cls x = Exception_
    /\ (isinstance integrity_failure OperationalError = true -> kind x = Some ConnectionFailure)
    /\ (isinstance integrity_failure ProgrammingError = true ->
        str x = "Query error: " +:+ str integrity_failure /\ kind x = Some QueryError)
    /\ (isinstance integrity_failure IntegrityError = true ->
        str x = "Data Constraint violation: " +:+ str integrity_failure
        /\ kind x = Some ConstraintViolation)
    /\ (isinstance integrity_failure PoolError = true -> kind x = Some PoolExhausted)
    /\ (isinstance integrity_failure OperationalError = false ->
        isinstance integrity_failure ProgrammingError = false ->
        isinstance integrity_failure IntegrityError = false ->
        isinstance integrity_failure PoolError = false ->
        str x = "Unexpected database error: " +:+ str integrity_failure
        /\ kind x = Some Unexpected).
Proof.
  apply (execute_query_failure_mapping unit (scripted (execute_fails integrity_failure))
           (SqlText "SELECT 1") None start
           (World tt [Getconn (Return 1%nat); Cursor 1%nat (Return 2%nat)])
           (World tt [Getconn (Return 1%nat); Cursor 1%nat (Return 2%nat);
                      Execute 2%nat (SqlText "SELECT 1") None (Raise integrity_failure)])
           1%nat 2%nat integrity_failure tt).
  - reflexivity.
  - reflexivity.
  - reflexivity.
Defined.

(** C5 as the specification words it fails: an integrity failure of a read
    query is raised as a ConstraintViolation, not as Unexpected. *)
Lemma query_integrity_failure_not_unexpected :
  let r := fst (execute_query (scripted (execute_fails integrity_failure))
                  (SqlText "SELECT 1") None start) in
  r = Raise (Exn Exception_
               "Data Constraint violation: duplicate key value violates unique constraint")
  /\ forall x, r = Raise x -> kind x = Some ConstraintViolation /\ kind x <> Some Unexpected.
Proof.
  split; [ reflexivity | ].
  intros x Hx. cbv in Hx. inversion Hx; subst. split; [ reflexivity | discriminate ].
Qed.

(** ** The constructor and the pool *)

Lemma pool_step_maxconn (p : pool) (op : pool_op) :
  maxconn (snd (pool_step p op)) = maxconn p.
Proof.
  destruct op; unfold pool_step;
    repeat match goal with |- context [if ?b then _ else _] => destruct b end;
    reflexivity.
Qed.

(** A pool step keeps the live connections within the maximum. *)
Lemma pool_step_bounded (p : pool) (op : pool_op) :
  (live p <= maxconn p)%nat ->
  (live (snd (pool_step p op)) <= maxconn (snd (pool_step p op)))%nat.
Proof.
  unfold live. intros Hb.
  destruct op; unfold pool_step.
  - destruct (closed p); [ exact Hb | ].
    destruct (0 <? idle p)%nat eqn:Hidle.
    + apply Nat.ltb_lt in Hidle. cbn [snd idle outstanding maxconn]. lia.
    + apply Nat.ltb_ge in Hidle.
      destruct (outstanding p <? maxconn p)%nat eqn:Hout.
      * apply Nat.ltb_lt in Hout. cbn [snd idle outstanding maxconn]. lia.
      * exact Hb.
  - destruct (closed p); [ exact Hb | ].
    destruct (0 <? outstanding p)%nat eqn:Hout.
    + apply Nat.ltb_lt in Hout. cbn [snd idle outstanding maxconn]. lia.
    + exact Hb.
  - cbn [snd idle outstanding maxconn]. lia.
Qed.

Lemma run_pool_bounded (sched : schedule) :
  forall p : pool,
    (live p <= maxconn p)%nat ->
    (live (run_pool p sched) <= maxconn p)%nat
    /\ maxconn (run_pool p sched) = maxconn p.
Proof.
  induction sched as [ | [caller op] sched IH ]; intros p Hb.
  - split; [ exact Hb | reflexivity ].
  - cbn [run_pool fold_left snd].
    destruct (IH (snd (pool_step p op)) (pool_step_bounded p op Hb)) as [Hl Hm].
    unfold run_pool in Hl, Hm. rewrite pool_step_maxconn in Hl, Hm.
    split; assumption.
Qed.

Lemma first_keyword_None (names : list string) (kwargs : keywords) :
  first_keyword names kwargs = None <->
  forall k, In k names -> ~ In k (map fst kwargs).
Proof.
  unfold first_keyword. split.
  - intros Hnone k Hk Hin.
    pose proof (List.find_none _ _ Hnone k Hin) as Hf. cbn in Hf.
    assert (Ht : existsb (String.eqb k) names = true).
    { apply existsb_exists. exists k. split; [ exact Hk | apply String.eqb_refl ]. }
    congruence.
  - intros Hall. induction (map fst kwargs) as [ | k l IH ]; [ reflexivity | ].
    cbn [List.find]. destruct (existsb (String.eqb k) names) eqn:Hex.
    + apply existsb_exists in Hex as (k' & Hk' & Heq).
      apply String.eqb_eq in Heq. subst k'.
      exfalso. apply (Hall k Hk'). left. reflexivity.
    + apply IH. intros k' Hk' Hin. apply (Hall k' Hk'). right. exact Hin.
Qed.

(** The keywords that the source writes out are no parameters of the pool. *)
Lemma pool_parameters_of_call (host dbname user password : string) (kwargs : keywords) :
  first_keyword pool_parameters (call_keywords host dbname user password kwargs)
  = first_keyword pool_parameters kwargs.
Proof. reflexivity. Qed.

(** When the constructor returns, and what it returns then. *)
Lemma constructor_returns (connect : gmap string value -> outcome unit)
    (host dbname user password : string) (kwargs : keywords) (db : DatabaseConnection) :
  __init__ connect host dbname user password kwargs = Return db <->
  extra_options kwargs
  /\ connect (to_options (call_keywords host dbname user password kwargs)) = Return tt
  /\ db = {| self_pool :=
               ThreadedConnectionPool 1 10
                 (to_options (call_keywords host dbname user password kwargs)) |}.
Proof.
  unfold __init__, ThreadedConnectionPool_init. rewrite pool_parameters_of_call. split.
  - destruct (first_keyword bound_keywords kwargs) eqn:H1; [ discriminate | ].
    destruct (first_keyword explicit_keywords kwargs) eqn:H2; [ discriminate | ].
    destruct (first_keyword pool_parameters kwargs) eqn:H3; [ discriminate | ].
    cbn [open_sessions].
    destruct (connect (to_options (call_keywords host dbname user password kwargs)))
      as [[] | e] eqn:Hc; [ | discriminate ].
    intros [= <-]. split; [ | split; reflexivity ].
    rewrite first_keyword_None in H1, H2, H3.
    intros k Hk. cbn in Hk.
    destruct Hk as [<- | [<- | [<- | [<- | [<- | [<- | [<- | [<- | []]]]]]]]];
      first [ apply H1; cbn; tauto | apply H2; cbn; tauto | apply H3; cbn; tauto ].
  - intros (Hextra & Hc & ->).
    rewrite (proj2 (first_keyword_None bound_keywords kwargs))
      by (intros k Hk; apply Hextra; cbn in *; tauto).
    rewrite (proj2 (first_keyword_None explicit_keywords kwargs))
      by (intros k Hk; apply Hextra; cbn in *; tauto).
    rewrite (proj2 (first_keyword_None pool_parameters kwargs))
      by (intros k Hk; apply Hextra; cbn in *; tauto).
    cbn [open_sessions]. rewrite Hc. reflexivity.
Qed.

(** A keyword that names a parameter of one of the two constructors, or
    one that the source writes out, is rejected before any session is
    opened: no keyword can change the bounds of the pool. *)
Lemma constructor_rejects_reserved_keyword (connect : gmap string value -> outcome unit)
    (host dbname user password : string) (kwargs : keywords) :
  ~ extra_options kwargs ->
  exists e, __init__ connect host dbname user password kwargs = Raise e
            /\ exn_cls e = TypeError.
Proof.
  intros Hreserved.
  destruct (__init__ connect host dbname user password kwargs) as [db | e] eqn:Hrun.
  - apply constructor_returns in Hrun as (Hextra & _). contradiction.
  - exists e. split; [ reflexivity | ].
    revert Hrun. unfold __init__, ThreadedConnectionPool_init.
    rewrite pool_parameters_of_call.
    destruct (first_keyword bound_keywords kwargs) eqn:H1; [ intros [= <-]; reflexivity | ].
    destruct (first_keyword explicit_keywords kwargs) eqn:H2; [ intros [= <-]; reflexivity | ].
    destruct (first_keyword pool_parameters kwargs) eqn:H3; [ intros [= <-]; reflexivity | ].
    exfalso. apply Hreserved.
    rewrite first_keyword_None in H1, H2, H3.
    intros k Hk. cbn in Hk.
    destruct Hk as [<- | [<- | [<- | [<- | [<- | [<- | [<- | [<- | []]]]]]]]];
      first [ apply H1; cbn; tauto | apply H2; cbn; tauto | apply H3; cbn; tauto ].
Qed.

(** The keywords [minconn], [maxconn] and [self] as Python rejects them. *)
Lemma constructor_rejects_bounds :
  __init__ accepting_server "localhost" "test_db" "test_user" "test_pass" [("minconn", VInt 5)]
  = Raise (Exn TypeError
             "ThreadedConnectionPool.__init__() got multiple values for argument 'minconn'")
  /\ __init__ accepting_server "localhost" "test_db" "test_user" "test_pass"
       [("port", VInt 5433); ("maxconn", VInt 20); ("minconn", VInt 5)]
     = Raise (Exn TypeError
                "ThreadedConnectionPool.__init__() got multiple values for argument 'maxconn'")
  /\ __init__ accepting_server "localhost" "test_db" "test_user" "test_pass"
       [("minconn", VInt 5); ("self", VNone)]
     = Raise (Exn TypeError
                "DatabaseConnection.__init__() got multiple values for argument 'self'").
Proof. repeat split. Qed.

(** A session that cannot be opened: the constructor has no [except]
    clause, and the failure of the pool leaves it unclassified. *)
Lemma constructor_passes_on_connect_failure (connect : gmap string value -> outcome unit)
    (host dbname user password : string) (kwargs : keywords) (e : exn) :
  extra_options kwargs ->
  connect (to_options (call_keywords host dbname user password kwargs)) = Raise e ->
  __init__ connect host dbname user password kwargs = Raise e.
Proof.
  intros Hextra Hc. unfold __init__, ThreadedConnectionPool_init.
  rewrite pool_parameters_of_call.
  rewrite (proj2 (first_keyword_None bound_keywords kwargs))
    by (intros k Hk; apply Hextra; cbn in *; tauto).
  rewrite (proj2 (first_keyword_None explicit_keywords kwargs))
    by (intros k Hk; apply Hextra; cbn in *; tauto).
  rewrite (proj2 (first_keyword_None pool_parameters kwargs))
    by (intros k Hk; apply Hextra; cbn in *; tauto).
  cbn [open_sessions]. rewrite Hc. reflexivity.
Qed.

(** C8: the constructor creates the pool with the minimum 1 and the
    maximum 10 and passes host, database name, user, password and every
    extra option on unchanged, always: it returns whenever the keywords are
    extra options and the first session can be opened, and whatever the
    arguments, a constructor that returns was given extra options only and
    has made a pool with these bounds and these options, so that no keyword
    changes the bounds; and in every state that any interleaving of
    acquires, releases and shutdowns of any callers reaches from there, the
    live connections, and so the outstanding ones, number at most 10. *)
Theorem constructor_fixes_pool_bounds (connect : gmap string value -> outcome unit)
    (host dbname user password : string) (kwargs : keywords) :
  (extra_options kwargs ->
   connect (to_options (call_keywords host dbname user password kwargs)) = Return tt ->
   exists db, __init__ connect host dbname user password kwargs = Return db)
  /\ (forall db,
        __init__ connect host dbname user password kwargs = Return db ->
        extra_options kwargs
        /\ minconn (self_pool db) = 1%nat
        /\ maxconn (self_pool db) = 10%nat
        /\ connect_options (self_pool db) =
             <["host" := VStr host]>
               (<["database" := VStr dbname]>
                  (<["user" := VStr user]>
                     (<["password" := VStr password]> (to_options kwargs))))
        /\ (forall k v, to_options kwargs !! k = Some v ->
                        connect_options (self_pool db) !! k = Some v)
        /\ (forall sched : schedule,
              (outstanding (run_pool (self_pool db) sched)
               <= live (run_pool (self_pool db) sched))%nat
              /\ (live (run_pool (self_pool db) sched) <= 10)%nat)).
Proof.
  split.
  - intros Hextra Hc. eexists. apply constructor_returns.
    split; [ exact Hextra | split; [ exact Hc | reflexivity ] ].
  - intros db Hrun. apply constructor_returns in Hrun as (Hextra & _ & ->).
    cbn [self_pool ThreadedConnectionPool minconn maxconn connect_options].
    split; [ exact Hextra | ]. repeat split.
    + intros k v Hk.
      assert (Hin : In k (map fst kwargs)).
      { apply elem_of_list_to_map_2 in Hk. apply list_elem_of_In in Hk.
        apply (in_map fst) in Hk. exact Hk. }
      assert (Hne : forall k', In k' reserved_keywords -> k' <> k).
      { intros k' Hk' ->. exact (Hextra _ Hk' Hin). }
      unfold to_options, call_keywords. cbn [list_to_map foldr fst snd].
      rewrite !lookup_insert_ne by (apply Hne; cbn; tauto).
      exact Hk.
    + unfold live. lia.
    + apply (run_pool_bounded sched (ThreadedConnectionPool 1 10 _)).
      unfold live. cbn. lia.
Qed.

Lemma constructor_fixes_pool_bounds_witness :
  exists db,
    __init__ accepting_server "localhost" "test_db" "test_user" "test_pass" example_options
    = Return db
    /\ minconn (self_pool db) = 1%nat
    /\ maxconn (self_pool db) = 10%nat
    /\ connect_options (self_pool db) =
         <["host" := VStr "localhost"]>
           (<["database" := VStr "test_db"]>
              (<["user" := VStr "test_user"]>
                 (<["password" := VStr "test_pass"]> (to_options example_options))))
    /\ (forall k v, to_options example_options !! k = Some v ->
                    connect_options (self_pool db) !! k = Some v)
    /\ (forall sched : schedule,
          (outstanding (run_pool (self_pool db) sched)
           <= live (run_pool (self_pool db) sched))%nat
          /\ (live (run_pool (self_pool db) sched) <= 10)%nat).
Proof.
  destruct (constructor_fixes_pool_bounds accepting_server "localhost" "test_db" "test_user"
              "test_pass" example_options) as [Hreturns Halways].
  destruct Hreturns as [db Hdb].
  - intros k Hk Hin. cbn in Hk, Hin.
    destruct Hin as [<- | [<- | []]];
      destruct Hk as [Hk | [Hk | [Hk | [Hk | [Hk | [Hk | [Hk | [Hk | []]]]]]]]];
      discriminate Hk.
  - reflexivity.
  - exists db. split; [ exact Hdb | ].
    destruct (Halways db Hdb) as (_ & Hmin & Hmax & Hopts & Hverbatim & Hsched).
    repeat split; try assumption; apply Hsched.
Defined.

(** ** The verification of the provisioner *)

Lemma try_except_catch_all {S A : Type} (body : M S A) (handler : exn -> M S A) (s : S) :
  try_except body [([Exception_], handler)] s =
    match body s with
    | (Return a, s') => (Return a, s')
    | (Raise e, s') => handler e s'
    end.
Proof.
  unfold try_except. destruct (body s) as [[a | e] s']; [ reflexivity | ].
  cbn [dispatch existsb]. rewrite isinstance_Exception. reflexivity.
Qed.

Lemma first_cell_run {S : Type} (result : rows) (s : S) :
  first_cell result s =
    match first_cell_of (Return result) with
    | Some v => (Return v, s)
    | None =>
        match result with
        | [] => (Raise (Exn IndexError "list index out of range"), s)
        | _ => (Raise (Exn IndexError "tuple index out of range"), s)
        end
    end.
Proof. destruct result as [ | [ | v row ] result ]; reflexivity. Qed.

Section VerifySetup.

Context {S : Type}.
Variable db_execute_query : sql -> option params -> M S rows.

(** The states of the database during the verification, and its answers
    about the required tables in these states.  Nothing is asked of the
    answer to the extension query. *)
Variable during : S -> Prop.
Variable answers : sql -> option params -> outcome rows.

Hypothesis during_kept :
  forall query p s, during s -> during (snd (db_execute_query query p s)).

Hypothesis exists_answer :
  forall t s, In t required_tables -> during s ->
    fst (db_execute_query SelectTableExists (Some [VStr t]) s)
    = answers SelectTableExists (Some [VStr t]).

Hypothesis count_answer :
  forall t s, In t required_tables -> during s ->
    fst (db_execute_query (SelectCount t) None s) = answers (SelectCount t) None.





End VerifySetup.


(** ** The provisioner on the catalog *)

(** *** Growing catalogs *)

Lemma covers_refl (c : catalog) : covers c c.
Proof. unfold covers. auto. Qed.

Lemma covers_trans (c1 c2 c3 : catalog) : covers c1 c2 -> covers c2 c3 -> covers c1 c3.
Proof.
  intros (He & Ht & Hk & Hi) (He' & Ht' & Hk' & Hi'). unfold covers. repeat split; auto.
Qed.

Lemma covers_add_extension (ext : string) (c : catalog) : covers c (add_extension ext c).
Proof.
  unfold covers, has_extension, add_extension. cbn. repeat split; auto.
  intros ext' H. apply bool_decide_eq_true in H. apply bool_decide_eq_true. set_solver.
Qed.

Lemma has_extension_added (ext : string) (c : catalog) :
  has_extension (add_extension ext c) ext = true.
Proof. unfold has_extension, add_extension. cbn. apply bool_decide_eq_true. set_solver. Qed.

Lemma covers_add_table (t : string) (c : catalog) : covers c (add_table t c).
Proof.
  unfold covers, has_table, add_table. cbn. repeat split; auto.
  intros t' H. apply bool_decide_eq_true in H. apply bool_decide_eq_true.
  destruct (decide (t = t')) as [-> | Hne].
  - rewrite lookup_insert_eq. eauto.
  - rewrite lookup_insert_ne by exact Hne. exact H.
Qed.

Lemma has_table_added (t : string) (c : catalog) : has_table (add_table t c) t = true.
Proof.
  unfold has_table, add_table. cbn. apply bool_decide_eq_true.
  rewrite lookup_insert_eq. eauto.
Qed.

Lemma covers_add_constraint (t k r : string) (c : catalog) : covers c (add_constraint t k r c).
Proof.
  unfold covers, has_constraint, add_constraint. cbn. repeat split; auto.
  intros t' k' H. apply bool_decide_eq_true in H. apply bool_decide_eq_true.
  destruct (decide ((t, k) = (t', k'))) as [<- | Hne].
  - rewrite lookup_insert_eq. eauto.
  - rewrite lookup_insert_ne by exact Hne. exact H.
Qed.

Lemma has_constraint_added (t k r : string) (c : catalog) :
  has_constraint (add_constraint t k r c) t k = true.
Proof.
  unfold has_constraint, add_constraint. cbn. apply bool_decide_eq_true.
  rewrite lookup_insert_eq. eauto.
Qed.

Lemma covers_add_index (i t : string) (c : catalog) : covers c (add_index i t c).
Proof.
  unfold covers, has_index, add_index. cbn. repeat split; auto.
  intros i' H. apply bool_decide_eq_true in H. apply bool_decide_eq_true.
  destruct (decide (i = i')) as [-> | Hne].
  - rewrite lookup_insert_eq. eauto.
  - rewrite lookup_insert_ne by exact Hne. exact H.
Qed.

Lemma has_index_added (i t : string) (c : catalog) : has_index (add_index i t c) i = true.
Proof.
  unfold has_index, add_index. cbn. apply bool_decide_eq_true.
  rewrite lookup_insert_eq. eauto.
Qed.

#[local] Opaque has_extension extension_available has_table has_constraint has_index.

(** *** Statements through [DatabaseConnection] *)

Lemma same_schema_trans (w1 w2 w3 : world pg) :
  same_schema w1 w2 -> same_schema w2 w3 -> same_schema w1 w3.
Proof. intros [H1 H2] [H3 H4]. split; congruence. Qed.

Lemma creations_app (d : pg) (tr evs : list event) :
  creations (World d (tr ++ evs)) = creations (World d tr) ++ List.filter is_creation evs.
Proof. unfold creations. cbn [trace]. apply List.filter_app. Qed.

Lemma pg_table_exists (t : string) (w : world pg) :
  exists w',
    _table_exists (execute_query postgres) t w = (Return (VBool (has_table (schema w) t)), w')
    /\ same_schema w w'.
Proof.
  destruct w as [[c f a] tr].
  eexists. split; [ reflexivity | ].
  split; [ reflexivity | ].
  cbn -[creations]. rewrite <- !app_assoc. rewrite creations_app.
  unfold creations. cbn. apply app_nil_r.
Qed.

Lemma pg_constraint_exists (t k : string) (w : world pg) :
  exists w',
    _constraint_exists (execute_query postgres) t k w
    = (Return (VBool (has_constraint (schema w) t k)), w')
    /\ same_schema w w'.
Proof.
  destruct w as [[c f a] tr].
  eexists. split; [ reflexivity | ].
  split; [ reflexivity | ].
  cbn -[creations]. rewrite <- !app_assoc. rewrite creations_app.
  unfold creations. cbn. apply app_nil_r.
Qed.

Ltac unfold_postgres :=
  unfold_py;
  cbn [postgres pool_getconn conn_cursor cur_execute conn_commit conn_rollback
         cur_rowcount cur_close pool_putconn driver_state trace fst snd cat].

(** A statement that succeeds: the update returns, and the schema is the
    statement's. *)
Lemma pg_update_returns (query : sql) (w : world pg) (c' : catalog)
    (res : option rows) (n : Z) :
  pg_exec query None (schema w) = Return (c', res, n) ->
  exists w',
    execute_update postgres query None w = (Return n, w')
    /\ schema w' = c'
    /\ creations w' =
         creations w ++ List.filter is_creation [Execute 0%nat query None (Return tt)].
Proof.
  destruct w as [[c f a] tr]. unfold schema. cbn [driver_state cat]. intros H.
  unfold_postgres. rewrite H. cbn -[creations].
  eexists; split; [ reflexivity | ]; split; [ reflexivity | ].
  rewrite <- !app_assoc; rewrite creations_app; unfold creations; cbn [trace].
  f_equal; cbn; destruct query; reflexivity.
Qed.

(** A statement that fails: the update raises the classified error and the
    schema stays. *)
Lemma pg_update_raises (query : sql) (w : world pg) (e : exn) :
  pg_exec query None (schema w) = Raise e ->
  exn_cls e = ProgrammingError \/ exn_cls e = OperationalError ->
  exists w',
    execute_update postgres query None w =
      (Raise (Exn Exception_
                (match exn_cls e with
                 | OperationalError => "Database connection failed during update, try again"
                 | _ => "Query error: " +:+ str e
                 end)), w')
    /\ schema w' = schema w
    /\ creations w' =
         creations w ++ List.filter is_creation [Execute 0%nat query None (Raise e)].
Proof.
  destruct w as [[c f a] tr]. unfold schema. cbn [driver_state cat]. intros H Hcls.
  unfold_postgres. rewrite H. destruct e as [cls msg]. cbn [exn_cls] in Hcls.
  destruct Hcls as [-> | ->]; cbn -[creations].
  all: eexists; split; [ reflexivity | ]; split; [ reflexivity | ].
  all: rewrite <- !app_assoc; rewrite creations_app; unfold creations; cbn [trace].
  all: f_equal; cbn; destruct query; reflexivity.
Qed.

(** Evaluation of the tests on closed message texts. *)
Ltac compute_contains :=
  repeat match goal with
    | |- context [contains ?a ?b] =>
        let v := eval vm_compute in (contains a b) in
        change (contains a b) with v
    end.

Lemma pg_exec_raises (query : sql) (p : option params) (c : catalog) (e : exn) :
  pg_exec query p c = Raise e ->
  exn_cls e = ProgrammingError \/ exn_cls e = OperationalError.
Proof.
  unfold pg_exec, answer, done_ddl, undefined_table. intros H.
  repeat match type of H with
    | context [match ?x with _ => _ end] => destruct x
    end; try discriminate H; inversion H; auto.
Qed.

Lemma same_schema_refl (w : world pg) : same_schema w w.
Proof. split; reflexivity. Qed.

Lemma setup_pgvector_step (w : world pg) :
  exists r w',
    _setup_pgvector (execute_update postgres) w = (r, w')
    /\ covers (schema w) (schema w')
    /\ (r = Return tt -> has_extension (schema w') "vector" = true)
    /\ (has_extension (schema w) "vector" = true -> r = Return tt /\ same_schema w w').
Proof.
  unfold _setup_pgvector. rewrite try_except_catch_all. unfold bind.
  destruct (has_extension (schema w) "vector") eqn:Hext;
    [ | destruct (extension_available (schema w) "vector") eqn:Hav ].
  - assert (Hexec : pg_exec (CreateExtensionIfNotExists "vector") None (schema w)
                    = Return (schema w, None, -1))
      by (cbn [pg_exec]; rewrite Hext; reflexivity).
    destruct (pg_update_returns _ _ _ _ _ Hexec) as (w' & -> & Hs & Hc).
    exists (Return tt), w'. split; [ reflexivity | ]. rewrite Hs.
    split; [ apply covers_refl | ]. split; [ auto | ].
    intros _. split; [ reflexivity | ]. split; [ exact Hs | ].
    rewrite Hc. apply app_nil_r.
  - assert (Hexec : pg_exec (CreateExtensionIfNotExists "vector") None (schema w)
                    = Return (add_extension "vector" (schema w), None, -1))
      by (cbn [pg_exec]; rewrite Hext, Hav; reflexivity).
    destruct (pg_update_returns _ _ _ _ _ Hexec) as (w' & -> & Hs & Hc).
    exists (Return tt), w'. split; [ reflexivity | ]. rewrite Hs.
    split; [ apply covers_add_extension | ].
    split; [ intros _; apply has_extension_added | discriminate ].
  - assert (Hexec : pg_exec (CreateExtensionIfNotExists "vector") None (schema w)
                    = Raise (Exn OperationalError
                               ("could not open extension control file for "
                                +:+ quoted "vector")))
      by (cbn [pg_exec]; rewrite Hext, Hav; reflexivity).
    destruct (pg_update_raises _ _ _ Hexec (pg_exec_raises _ _ _ _ Hexec)) as (w' & -> & Hs & Hc).
    cbn [exn_cls str]. compute_contains. cbv iota. unfold raise.
    eexists _, _. split; [ reflexivity | ]. rewrite Hs.
    split; [ apply covers_refl | ]. split; discriminate.
Qed.

Lemma create_table_step (t : string) (w : world pg) :
  exists r w',
    create_table_if_absent (execute_query postgres) (execute_update postgres) t w = (r, w')
    /\ covers (schema w) (schema w')
    /\ (r = Return tt -> has_table (schema w') t = true)
    /\ (has_table (schema w) t = true -> r = Return tt /\ same_schema w w').
Proof.
  unfold create_table_if_absent. unfold bind at 1.
  destruct (pg_table_exists t w) as (w1 & -> & Hs1 & Hc1).
  cbn [truthy]. destruct (has_table (schema w) t) eqn:Ht; cbn [negb].
  - exists (Return tt), w1. split; [ reflexivity | ]. rewrite Hs1.
    split; [ apply covers_refl | ]. split; [ auto | ].
    intros _. split; [ reflexivity | split; assumption ].
  - unfold bind.
    destruct (String.eqb t "embeddings" && negb (has_extension (schema w) "vector")) eqn:Hvec.
    + assert (Hexec : pg_exec (CreateTable t) None (schema w1)
                      = Raise (Exn ProgrammingError
                                 ("type " +:+ quoted "vector" +:+ " does not exist")))
        by (cbn [pg_exec]; rewrite Hs1, Ht, Hvec; reflexivity).
      destruct (pg_update_raises _ _ _ Hexec (pg_exec_raises _ _ _ _ Hexec))
        as (w' & -> & Hs & Hc).
      eexists _, _. split; [ reflexivity | ]. rewrite Hs, Hs1.
      split; [ apply covers_refl | ]. split; discriminate.
    + assert (Hexec : pg_exec (CreateTable t) None (schema w1)
                      = Return (add_table t (schema w), None, -1))
        by (cbn [pg_exec]; rewrite Hs1, Ht, Hvec; reflexivity).
      destruct (pg_update_returns _ _ _ _ _ Hexec) as (w' & -> & Hs & Hc).
      exists (Return tt), w'. split; [ reflexivity | ]. rewrite Hs.
      split; [ apply covers_add_table | ].
      split; [ intros _; apply has_table_added | discriminate ].
Qed.

Lemma foreign_key_step (fk : string * string * string) (w : world pg) :
  In fk foreign_keys ->
  exists r w',
    foreign_key_round (execute_query postgres) (execute_update postgres) fk w = (r, w')
    /\ covers (schema w) (schema w')
    /\ (r = Return tt -> has_constraint (schema w') (fst (fst fk)) (snd fk) = true)
    /\ (has_constraint (schema w) (fst (fst fk)) (snd fk) = true ->
        r = Return tt /\ same_schema w w').
Proof.
  intros Hin. cbn in Hin.
  destruct Hin as [<- | [<- | [<- | []]]]; cbn [fst snd].
  all: unfold foreign_key_round; unfold bind at 1.
  all: match goal with
       | |- context [_constraint_exists _ ?t ?k _] =>
           destruct (pg_constraint_exists t k w) as (w1 & -> & Hs1 & Hc1);
           cbn [truthy]; destruct (has_constraint (schema w) t k) eqn:Hk; cbn [negb]
       end.
  all: try (exists (Return tt), w1; split; [ reflexivity | ]; rewrite Hs1;
            split; [ apply covers_refl | ]; split; [ auto | ];
            intros _; split; [ reflexivity | split; assumption ]).
  all: rewrite try_except_catch_all; unfold bind.
  all: match goal with
       | |- context [execute_update postgres ?q None _] =>
           destruct (pg_exec q None (schema w1)) as [[[c' res] n] | e] eqn:Hexec;
           [ destruct (pg_update_returns _ _ _ _ _ Hexec) as (w' & -> & Hs & Hc)
           | destruct (pg_update_raises _ _ _ Hexec (pg_exec_raises _ _ _ _ Hexec))
               as (w' & -> & Hs & Hc) ]
       end.
  all: cbn [pg_exec] in Hexec; rewrite Hs1, Hk in Hexec.
  all: match type of Hexec with
       | context [negb (has_table _ ?t)] =>
           destruct (negb (has_table (schema w) t))
       end.
  all: try discriminate Hexec.
  all: try (destruct (negb (has_table (schema w) "analysis_registry"))).
  all: try discriminate Hexec.
  all: unfold done_ddl in Hexec;
       lazymatch type of Hexec with
       | Return _ = Return _ => injection Hexec as <- <- <-
       | Raise _ = Raise _ => injection Hexec as <-
       end.
  all: try (exists (Return tt), w'; split; [ reflexivity | ]; rewrite Hs;
            split; [ apply covers_add_constraint | ];
            split; [ intros _; apply has_constraint_added | discriminate ]).
  all: cbn [undefined_table exn_cls str]; compute_contains; cbv iota; unfold raise.
  all: eexists _, _; (split; [ reflexivity | ]); rewrite Hs, Hs1.
  all: split; [ apply covers_refl | ]; split; discriminate.
Qed.

Lemma index_step (ix : string * string * string) (w : world pg) :
  exists w',
    index_round (execute_update postgres) ix w = (Return tt, w')
    /\ covers (schema w) (schema w')
    /\ (has_table (schema w) (snd (fst ix)) = true ->
        has_index (schema w') (fst (fst ix)) = true)
    /\ (has_index (schema w) (fst (fst ix)) = true -> same_schema w w').
Proof.
  destruct ix as [[i t] col]. cbn [fst snd].
  unfold index_round. rewrite try_except_catch_all. unfold bind.
  destruct (pg_exec (CreateIndexIfNotExists i t col) None (schema w))
    as [[[c' res] n] | e] eqn:Hexec.
  - destruct (pg_update_returns _ _ _ _ _ Hexec) as (w' & -> & Hs & Hc).
    exists w'. split; [ reflexivity | ]. rewrite Hs.
    cbn [pg_exec] in Hexec. unfold done_ddl in Hexec.
    destruct (has_index (schema w) i) eqn:Hi.
    + injection Hexec as <- <- <-.
      split; [ apply covers_refl | ]. split; [ auto | ].
      intros _. split; [ exact Hs | ]. rewrite Hc. apply app_nil_r.
    + destruct (negb (has_table (schema w) t)); [ discriminate | ].
      injection Hexec as <- <- <-.
      split; [ apply covers_add_index | ].
      split; [ intros _; apply has_index_added | discriminate ].
  - destruct (pg_update_raises _ _ _ Hexec (pg_exec_raises _ _ _ _ Hexec))
      as (w' & -> & Hs & Hc).
    cbn [pg_exec] in Hexec. unfold done_ddl in Hexec.
    destruct (has_index (schema w) i) eqn:Hi; [ discriminate | ].
    destruct (has_table (schema w) t) eqn:Ht; [ discriminate | ].
    exists w'. split; [ destruct (contains _ _); reflexivity | ]. rewrite Hs.
    split; [ apply covers_refl | ]. split; discriminate.
Qed.

Lemma vector_index_step (w : world pg) :
  exists w',
    try_except
      (execute_update postgres CreateVectorIndexIfNotExists None ;;; ret tt)
      [ ([Exception_], fun e =>
           if contains "already exists" (lower (str e)) then ret tt
           else if contains "does not exist" (lower (str e))
                   && contains "vector_cosine_ops" (lower (str e)) then ret tt
           else ret tt) ] w = (Return tt, w')
    /\ covers (schema w) (schema w')
    /\ (has_table (schema w) "embeddings" = true ->
        has_extension (schema w) "vector" = true ->
        has_index (schema w') "idx_embeddings_vector" = true)
    /\ (has_index (schema w) "idx_embeddings_vector" = true -> same_schema w w').
Proof.
  rewrite try_except_catch_all. unfold bind.
  destruct (pg_exec CreateVectorIndexIfNotExists None (schema w))
    as [[[c' res] n] | e] eqn:Hexec.
  - destruct (pg_update_returns _ _ _ _ _ Hexec) as (w' & -> & Hs & Hc).
    exists w'. split; [ reflexivity | ]. rewrite Hs.
    cbn [pg_exec] in Hexec. unfold done_ddl in Hexec.
    destruct (has_index (schema w) "idx_embeddings_vector") eqn:Hi.
    + injection Hexec as <- <- <-.
      split; [ apply covers_refl | ]. split; [ auto | ].
      intros _. split; [ exact Hs | ]. rewrite Hc. apply app_nil_r.
    + destruct (negb (has_table (schema w) "embeddings")); [ discriminate | ].
      destruct (negb (has_extension (schema w) "vector")); [ discriminate | ].
      injection Hexec as <- <- <-.
      split; [ apply covers_add_index | ].
      split; [ intros _ _; apply has_index_added | discriminate ].
  - destruct (pg_update_raises _ _ _ Hexec (pg_exec_raises _ _ _ _ Hexec))
      as (w' & -> & Hs & Hc).
    cbn [pg_exec] in Hexec. unfold done_ddl in Hexec.
    destruct (has_index (schema w) "idx_embeddings_vector") eqn:Hi; [ discriminate | ].
    exists w'. split.
    { destruct (contains "already exists" _); [ reflexivity | ].
      destruct (_ && _); reflexivity. }
    rewrite Hs. split; [ apply covers_refl | ]. split; [ | discriminate ].
    intros Ht Hx. rewrite Ht, Hx in Hexec. discriminate.
Qed.

(** *** Composition of the steps *)

Lemma establishes_seq (m1 m2 : M (world pg) unit) (P Q1 Q2 : catalog -> Prop) :
  monotone P -> monotone Q1 ->
  establishes m1 P Q1 ->
  establishes m2 (fun c => P c /\ Q1 c) Q2 ->
  establishes (m1 ;;; m2) P (fun c => Q1 c /\ Q2 c).
Proof.
  intros HP HQ1 H1 H2 w.
  destruct (H1 w) as (r1 & w1 & Hrun1 & Hcov1 & Hpost1 & Hnoop1).
  unfold bind. rewrite Hrun1.
  destruct r1 as [[] | e].
  - destruct (H2 w1) as (r2 & w2 & Hrun2 & Hcov2 & Hpost2 & Hnoop2).
    exists r2, w2. split; [ exact Hrun2 | ].
    split; [ exact (covers_trans _ _ _ Hcov1 Hcov2) | ].
    split.
    + intros Hp Hr. pose proof (Hpost1 Hp eq_refl) as Hq1.
      split; [ exact (HQ1 _ _ Hcov2 Hq1) | ].
      apply Hpost2; [ split; [ exact (HP _ _ Hcov1 Hp) | exact Hq1 ] | exact Hr ].
    + intros [Hq1 Hq2]. destruct (Hnoop1 Hq1) as [_ Hsame1].
      destruct Hsame1 as [Hs1 Hc1]. rewrite <- Hs1 in Hq2.
      destruct (Hnoop2 Hq2) as [Hr2 Hsame2].
      split; [ exact Hr2 | ].
      exact (same_schema_trans _ _ _ (conj Hs1 Hc1) Hsame2).
  - exists (Raise e), w1. split; [ reflexivity | ].
    split; [ exact Hcov1 | ]. split; [ discriminate | ].
    intros [Hq1 _]. destruct (Hnoop1 Hq1) as [Hr _]. discriminate Hr.
Qed.

Lemma establishes_weaken (m : M (world pg) unit) (P P' Q : catalog -> Prop) :
  (forall c, P' c -> P c) -> establishes m P Q -> establishes m P' Q.
Proof.
  intros Himp H w. destruct (H w) as (r & w' & Hrun & Hcov & Hpost & Hnoop).
  exists r, w'. split; [ exact Hrun | ]. split; [ exact Hcov | ]. split.
  - intros Hp Hr. apply Hpost; auto.
  - exact Hnoop.
Qed.

Lemma establishes_post (m : M (world pg) unit) (P Q Q' : catalog -> Prop) :
  (forall c, Q c <-> Q' c) -> establishes m P Q -> establishes m P Q'.
Proof.
  intros Hiff H w. destruct (H w) as (r & w' & Hrun & Hcov & Hpost & Hnoop).
  exists r, w'. split; [ exact Hrun | ]. split; [ exact Hcov | ]. split.
  - intros Hp Hr. apply Hiff. auto.
  - intros Hq. apply Hnoop. apply Hiff. exact Hq.
Qed.

Lemma establishes_skip (P : catalog -> Prop) : establishes (ret tt) P (fun _ => True).
Proof.
  intros w. exists (Return tt), w. split; [ reflexivity | ].
  split; [ apply covers_refl | ]. split; [ auto | ].
  intros _. split; [ reflexivity | apply same_schema_refl ].
Qed.

(** The facts are kept by growth. *)
Lemma monotone_true : monotone (fun _ => True).
Proof. intros c c' _ _. exact I. Qed.

Lemma monotone_and (Q1 Q2 : catalog -> Prop) :
  monotone Q1 -> monotone Q2 -> monotone (fun c => Q1 c /\ Q2 c).
Proof. intros H1 H2 c c' Hcov [Hq1 Hq2]. split; eauto. Qed.

Lemma monotone_extension (ext : string) : monotone (fun c => has_extension c ext = true).
Proof. intros c c' (He & _) H. auto. Qed.

Lemma monotone_table (t : string) : monotone (fun c => has_table c t = true).
Proof. intros c c' (_ & Ht & _) H. auto. Qed.

Lemma monotone_foreign_key (fk : string * string * string) :
  monotone (fun c => has_foreign_key c fk).
Proof. intros c c' (_ & _ & Hk & _) H. apply Hk. exact H. Qed.

Lemma monotone_index (ix : string * string * string) : monotone (fun c => has_index_of c ix).
Proof. intros c c' (_ & _ & _ & Hi) H. apply Hi. exact H. Qed.

Lemma monotone_table_of (ix : string * string * string) : monotone (fun c => has_table_of c ix).
Proof. intros c c' (_ & Ht & _) H. apply Ht. exact H. Qed.

Lemma monotone_Forall {A : Type} (Q : catalog -> A -> Prop) (l : list A) :
  (forall x, monotone (fun c => Q c x)) -> monotone (fun c => Forall (Q c) l).
Proof.
  intros HQ c c' Hcov H. induction H; constructor; auto.
  eapply HQ; eauto.
Qed.

(** The steps of [setup_all]. *)
Lemma setup_pgvector_establishes :
  establishes (_setup_pgvector (execute_update postgres))
    (fun _ => True) (fun c => has_extension c "vector" = true).
Proof.
  intros w. destruct (setup_pgvector_step w) as (r & w' & H1 & H2 & H3 & H4).
  exists r, w'. auto.
Qed.

Lemma create_table_establishes (t : string) :
  establishes (create_table_if_absent (execute_query postgres) (execute_update postgres) t)
    (fun _ => True) (fun c => has_table c t = true).
Proof.
  intros w. destruct (create_table_step t w) as (r & w' & H1 & H2 & H3 & H4).
  exists r, w'. auto.
Qed.

Lemma foreign_keys_establishes (l : list (string * string * string)) :
  (forall fk, In fk l -> In fk foreign_keys) ->
  establishes (for_each l (foreign_key_round (execute_query postgres) (execute_update postgres)))
    (fun _ => True) (fun c => Forall (has_foreign_key c) l).
Proof.
  induction l as [ | fk l IH ]; intros Hsub.
  - apply (establishes_post _ _ (fun _ => True)); [ | apply establishes_skip ].
    intros c. split; auto.
  - cbn [for_each].
    apply (establishes_post _ _
             (fun c => has_foreign_key c fk /\ Forall (has_foreign_key c) l)).
    { intros c. split; [ intros [H1 H2]; constructor; assumption | ].
      intros H. inversion H; subst. auto. }
    apply establishes_seq.
    + apply monotone_true.
    + apply monotone_foreign_key.
    + intros w.
      destruct (foreign_key_step fk w (Hsub fk (or_introl eq_refl)))
        as (r & w' & H1 & H2 & H3 & H4).
      exists r, w'. auto.
    + apply (establishes_weaken _ (fun _ => True)); [ auto | ].
      apply IH. intros fk' Hin. apply Hsub. right. exact Hin.
Qed.

Lemma indexes_establishes (l : list (string * string * string)) :
  establishes (for_each l (index_round (execute_update postgres)))
    (fun c => Forall (has_table_of c) l) (fun c => Forall (has_index_of c) l).
Proof.
  induction l as [ | ix l IH ].
  - apply (establishes_post _ _ (fun _ => True)); [ | apply establishes_skip ].
    intros c. split; auto.
  - cbn [for_each].
    apply (establishes_post _ _ (fun c => has_index_of c ix /\ Forall (has_index_of c) l)).
    { intros c. split; [ intros [H1 H2]; constructor; assumption | ].
      intros H. inversion H; subst. auto. }
    apply establishes_seq.
    + apply monotone_Forall. apply monotone_table_of.
    + apply monotone_index.
    + intros w. destruct (index_step ix w) as (w' & H1 & H2 & H3 & H4).
      exists (Return tt), w'. split; [ exact H1 | ]. split; [ exact H2 | ]. split.
      * intros H _. apply H3. inversion H; subst. assumption.
      * intros H. split; [ reflexivity | apply H4; exact H ].
    + apply (establishes_weaken _ (fun c => Forall (has_table_of c) l)); [ | exact IH ].
      intros c [H _]. inversion H; subst. assumption.
Qed.

Lemma vector_index_establishes :
  establishes
    (try_except
       (execute_update postgres CreateVectorIndexIfNotExists None ;;; ret tt)
       [ ([Exception_], fun e =>
            if contains "already exists" (lower (str e)) then ret tt
            else if contains "does not exist" (lower (str e))
                    && contains "vector_cosine_ops" (lower (str e)) then ret tt
            else ret tt) ])
    (fun c => has_table c "embeddings" = true /\ has_extension c "vector" = true)
    (fun c => has_index c "idx_embeddings_vector" = true).
Proof.
  intros w. destruct (vector_index_step w) as (w' & H1 & H2 & H3 & H4).
  exists (Return tt), w'. split; [ exact H1 | ]. split; [ exact H2 | ]. split.
  - intros [Ht Hx] _. auto.
  - intros H. split; [ reflexivity | auto ].
Qed.

Ltac solve_monotone :=
  repeat first
    [ apply monotone_and
    | apply monotone_true
    | apply monotone_extension
    | apply monotone_table
    | apply (monotone_Forall has_foreign_key); apply monotone_foreign_key
    | apply (monotone_Forall has_index_of); apply monotone_index
    | apply (monotone_Forall has_table_of); apply monotone_table_of ].

(** A step that asks nothing of the schema it starts from, after others. *)
Ltac then_step step :=
  apply establishes_seq;
  [ solve_monotone | solve_monotone
  | apply (establishes_weaken _ (fun _ => True)); [ auto | apply step ]
  | ].

(** The whole provisioning, without dropping: it only adds to the schema;
    when it returns, the schema is provisioned; and on a provisioned schema
    it returns and leaves the schema and the record of creation statements
    as they were. *)
Lemma provision_establishes : establishes (provision false) (fun _ => True) provisioned.
Proof.
  unfold provision, setup_all, _create_analysis_registry, _create_stg_rejects,
    _create_insights_cache, _create_query_history, _create_embeddings,
    _add_foreign_keys, _create_indexes.
  apply (establishes_post _ _
           (fun c =>
              True
              /\ has_extension c "vector" = true
              /\ has_table c "analysis_registry" = true
              /\ has_table c "stg_rejects" = true
              /\ has_table c "insights_cache" = true
              /\ has_table c "query_history" = true
              /\ has_table c "embeddings" = true
              /\ Forall (has_foreign_key c) foreign_keys
              /\ Forall (has_index_of c) indexes_to_create
              /\ has_index c "idx_embeddings_vector" = true)).
  { intros c. unfold provisioned, required_tables. split.
    - intros (_ & He & T1 & T2 & T3 & T4 & T5 & Hk & Hi & Hv).
      repeat split; try assumption. repeat constructor; assumption.
    - intros (He & Ht & Hk & Hi & Hv).
      repeat match goal with
        | H : Forall _ (_ :: _) |- _ => inversion H; clear H; subst
        end.
      repeat split; assumption. }
  then_step establishes_skip.
  then_step setup_pgvector_establishes.
  then_step create_table_establishes.
  then_step create_table_establishes.
  then_step create_table_establishes.
  then_step create_table_establishes.
  then_step create_table_establishes.
  then_step (foreign_keys_establishes foreign_keys (fun fk H => H)).
  apply establishes_seq; [ solve_monotone | solve_monotone | | ].
  - apply (establishes_weaken _ (fun c => Forall (has_table_of c) indexes_to_create));
      [ | apply indexes_establishes ].
    intros c ((((((((_ & _) & _) & T1) & T2) & T3) & T4) & T5) & _).
    unfold indexes_to_create, has_table_of. repeat constructor; assumption.
  - apply (establishes_weaken _
             (fun c => has_table c "embeddings" = true /\ has_extension c "vector" = true));
      [ | apply vector_index_establishes ].
    intros c (((((((((_ & _) & He) & _) & _) & _) & _) & T5) & _) & _).
    split; assumption.
Qed.

(** *** Runs that fail *)

(** The only failure of [_setup_pgvector] on the server: the extension is
    neither installed nor available.  It leaves the schema as it was. *)
Lemma setup_pgvector_outcome (w : world pg) :
  (has_extension (schema w) "vector" = true
   \/ extension_available (schema w) "vector" = true ->
   exists w', _setup_pgvector (execute_update postgres) w = (Return tt, w'))
  /\ (has_extension (schema w) "vector" = false ->
      extension_available (schema w) "vector" = false ->
      exists w',
        _setup_pgvector (execute_update postgres) w = (Raise pgvector_unavailable, w')
        /\ schema w' = schema w).
Proof.
  unfold _setup_pgvector. rewrite try_except_catch_all. unfold bind.
  destruct (has_extension (schema w) "vector") eqn:Hext;
    [ | destruct (extension_available (schema w) "vector") eqn:Hav ].
  - assert (Hexec : pg_exec (CreateExtensionIfNotExists "vector") None (schema w)
                    = Return (schema w, None, -1))
      by (cbn [pg_exec]; rewrite Hext; reflexivity).
    destruct (pg_update_returns _ _ _ _ _ Hexec) as (w' & -> & Hs & Hc).
    split; [ eauto | discriminate ].
  - assert (Hexec : pg_exec (CreateExtensionIfNotExists "vector") None (schema w)
                    = Return (add_extension "vector" (schema w), None, -1))
      by (cbn [pg_exec]; rewrite Hext, Hav; reflexivity).
    destruct (pg_update_returns _ _ _ _ _ Hexec) as (w' & -> & Hs & Hc).
    split; [ eauto | discriminate ].
  - assert (Hexec : pg_exec (CreateExtensionIfNotExists "vector") None (schema w)
                    = Raise (Exn OperationalError
                               ("could not open extension control file for "
                                +:+ quoted "vector")))
      by (cbn [pg_exec]; rewrite Hext, Hav; reflexivity).
    destruct (pg_update_raises _ _ _ Hexec (pg_exec_raises _ _ _ _ Hexec)) as (w' & -> & Hs & Hc).
    cbn [exn_cls str]. compute_contains. cbv iota. unfold raise.
    split; [ intros [H | H]; discriminate H | ].
    intros _ _. exists w'. split; [ reflexivity | exact Hs ].
Qed.

Lemma create_table_succeeds (t : string) :
  succeeds (create_table_if_absent (execute_query postgres) (execute_update postgres) t)
    (fun c => has_extension c "vector" = true).
Proof.
  intros w Hx. unfold create_table_if_absent. unfold bind at 1.
  destruct (pg_table_exists t w) as (w1 & -> & Hs1 & Hc1).
  cbn [truthy]. destruct (has_table (schema w) t) eqn:Ht; cbn [negb].
  - eexists. reflexivity.
  - unfold bind.
    assert (Hexec : pg_exec (CreateTable t) None (schema w1)
                    = Return (add_table t (schema w), None, -1)).
    { cbn [pg_exec]. rewrite Hs1, Ht, Hx. cbn [negb]. rewrite andb_false_r. reflexivity. }
    destruct (pg_update_returns _ _ _ _ _ Hexec) as (w' & -> & Hs & Hc).
    eexists. reflexivity.
Qed.

Lemma foreign_key_succeeds (fk : string * string * string) :
  succeeds (foreign_key_round (execute_query postgres) (execute_update postgres) fk)
    (fun c => has_table c (fst (fst fk)) = true /\ has_table c "analysis_registry" = true).
Proof.
  destruct fk as [[t col] k]. cbn [fst snd]. intros w [Ht Ha].
  unfold foreign_key_round. unfold bind at 1.
  destruct (pg_constraint_exists t k w) as (w1 & -> & Hs1 & Hc1).
  cbn [truthy]. destruct (has_constraint (schema w) t k) eqn:Hk; cbn [negb].
  - eexists. reflexivity.
  - rewrite try_except_catch_all. unfold bind.
    assert (Hexec : pg_exec (AlterTableAddForeignKey t k col) None (schema w1)
                    = Return (add_constraint t k "analysis_registry" (schema w), None, -1)).
    { cbn [pg_exec]. rewrite Hs1, Ht, Ha, Hk. reflexivity. }
    destruct (pg_update_returns _ _ _ _ _ Hexec) as (w' & -> & Hs & Hc).
    eexists. reflexivity.
Qed.

Lemma succeeds_seq (m1 m2 : M (world pg) unit) (P Q1 : catalog -> Prop) :
  monotone P ->
  establishes m1 P Q1 ->
  succeeds m1 P ->
  succeeds m2 (fun c => P c /\ Q1 c) ->
  succeeds (m1 ;;; m2) P.
Proof.
  intros HP H1 S1 S2 w Hp.
  destruct (S1 w Hp) as (w1 & Hrun1).
  destruct (H1 w) as (r & w' & Hrun & Hcov & Hpost & _).
  rewrite Hrun1 in Hrun. injection Hrun as <- <-.
  unfold bind. rewrite Hrun1.
  apply S2. split; [ exact (HP _ _ Hcov Hp) | exact (Hpost Hp eq_refl) ].
Qed.

Lemma succeeds_weaken (m : M (world pg) unit) (P P' : catalog -> Prop) :
  (forall c, P' c -> P c) -> succeeds m P -> succeeds m P'.
Proof. intros Himp H w Hp. apply H. apply Himp. exact Hp. Qed.

Lemma foreign_keys_succeed (l : list (string * string * string)) :
  (forall fk, In fk l -> In fk foreign_keys) ->
  succeeds (for_each l (foreign_key_round (execute_query postgres) (execute_update postgres)))
    (fun c => Forall (fun t => has_table c t = true) required_tables).
Proof.
  induction l as [ | fk l IH ]; intros Hsub.
  - intros w _. exists w. reflexivity.
  - cbn [for_each].
    apply (succeeds_seq _ _ _ (fun c => has_foreign_key c fk)).
    + apply (monotone_Forall (fun c t => has_table c t = true)). apply monotone_table.
    + apply (establishes_weaken _ (fun _ => True)); [ auto | ].
      intros w.
      destruct (foreign_key_step fk w (Hsub fk (or_introl eq_refl)))
        as (r & w' & H1 & H2 & H3 & H4).
      exists r, w'. auto.
    + apply (succeeds_weaken _
               (fun c => has_table c (fst (fst fk)) = true
                         /\ has_table c "analysis_registry" = true));
        [ | apply foreign_key_succeeds ].
      intros c Hall. unfold required_tables in Hall.
      repeat match goal with
        | H : Forall _ (_ :: _) |- _ => inversion H; clear H; subst
        end.
      pose proof (Hsub fk (or_introl eq_refl)) as Hin. cbn in Hin.
      destruct Hin as [<- | [<- | [<- | []]]]; cbn [fst snd]; split; assumption.
    + apply (succeeds_weaken _
               (fun c => Forall (fun t => has_table c t = true) required_tables)).
      * intros c [H _]. exact H.
      * apply IH. intros fk' Hin. apply Hsub. right. exact Hin.
Qed.

Lemma indexes_succeed (l : list (string * string * string)) :
  succeeds (for_each l (index_round (execute_update postgres))) (fun _ => True).
Proof.
  induction l as [ | ix l IH ]; intros w _.
  - exists w. reflexivity.
  - cbn [for_each]. unfold bind.
    destruct (index_step ix w) as (w1 & -> & _).
    apply IH. exact I.
Qed.

Lemma create_indexes_succeeds :
  succeeds (_create_indexes (execute_update postgres)) (fun _ => True).
Proof.
  intros w _. unfold _create_indexes. unfold bind.
  destruct (indexes_succeed indexes_to_create w I) as (w1 & ->).
  destruct (vector_index_step w1) as (w2 & Hrun & _).
  exists w2. exact Hrun.
Qed.

Ltac then_table :=
  match goal with
  | |- succeeds (create_table_if_absent _ _ ?t ;;; _) _ =>
      apply (succeeds_seq _ _ _ (fun c => has_table c t = true));
      [ solve_monotone
      | apply (establishes_weaken _ (fun _ => True));
        [ auto | apply create_table_establishes ]
      | apply (succeeds_weaken _ (fun c => has_extension c "vector" = true));
        [ intros c H; tauto
        | apply create_table_succeeds ]
      | ]
  end.

(** After the extension is there, the rest of the setup returns. *)
Lemma setup_after_pgvector_succeeds :
  succeeds
    (_create_analysis_registry (execute_query postgres) (execute_update postgres) ;;;
     _create_stg_rejects (execute_query postgres) (execute_update postgres) ;;;
     _create_insights_cache (execute_query postgres) (execute_update postgres) ;;;
     _create_query_history (execute_query postgres) (execute_update postgres) ;;;
     _create_embeddings (execute_query postgres) (execute_update postgres) ;;;
     _add_foreign_keys (execute_query postgres) (execute_update postgres) ;;;
     _create_indexes (execute_update postgres))
    (fun c => has_extension c "vector" = true).
Proof.
  unfold _create_analysis_registry, _create_stg_rejects, _create_insights_cache,
    _create_query_history, _create_embeddings, _add_foreign_keys.
  then_table. then_table. then_table. then_table. then_table.
  apply (succeeds_seq _ _ _ (fun c => Forall (has_foreign_key c) foreign_keys)).
  - solve_monotone.
  - apply (establishes_weaken _ (fun _ => True)); [ auto | ].
    apply (foreign_keys_establishes foreign_keys (fun fk H => H)).
  - apply (succeeds_weaken _
             (fun c => Forall (fun t => has_table c t = true) required_tables));
      [ | apply (foreign_keys_succeed foreign_keys (fun fk H => H)) ].
    intros c (((((_ & T1) & T2) & T3) & T4) & T5).
    unfold required_tables. repeat constructor; assumption.
  - apply (succeeds_weaken _ (fun _ => True)); [ auto | apply create_indexes_succeeds ].
Qed.

Lemma provision_unfold (w : world pg) :
  provision false w =
    match _setup_pgvector (execute_update postgres) w with
    | (Return _, w') =>
        (_create_analysis_registry (execute_query postgres) (execute_update postgres) ;;;
         _create_stg_rejects (execute_query postgres) (execute_update postgres) ;;;
         _create_insights_cache (execute_query postgres) (execute_update postgres) ;;;
         _create_query_history (execute_query postgres) (execute_update postgres) ;;;
         _create_embeddings (execute_query postgres) (execute_update postgres) ;;;
         _add_foreign_keys (execute_query postgres) (execute_update postgres) ;;;
         _create_indexes (execute_update postgres)) w'
    | (Raise e, w') => (Raise e, w')
    end.
Proof. reflexivity. Qed.

(** A run of the setup either completes or fails for the extension, and
    then leaves the schema as it was. *)
Lemma provision_outcome (w : world pg) :
  ((has_extension (schema w) "vector" = true
    \/ extension_available (schema w) "vector" = true)
   /\ exists w1, provision false w = (Return tt, w1))
  \/ (has_extension (schema w) "vector" = false
      /\ extension_available (schema w) "vector" = false
      /\ exists w1,
           provision false w = (Raise pgvector_unavailable, w1) /\ schema w1 = schema w).
Proof.
  rewrite !provision_unfold.
  destruct (setup_pgvector_outcome w) as [Hret Hraise].
  destruct (has_extension (schema w) "vector") eqn:Hext;
    [ | destruct (extension_available (schema w) "vector") eqn:Hav ].
  3:{ right. destruct (Hraise eq_refl eq_refl) as (w1 & -> & Hs). eauto. }
  all: left; split; [ auto | ].
  all: destruct Hret as (wa & Hrun); [ auto | ].
  all: destruct (setup_pgvector_establishes w) as (r & w' & Hrun' & _ & Hpost & _).
  all: rewrite Hrun in Hrun'; injection Hrun' as <- <-.
  all: rewrite Hrun.
  all: apply setup_after_pgvector_succeeds; apply Hpost; auto.
Qed.

(** C9: running the full setup twice in a row, without dropping, is
    idempotent, from any schema.  The second run ends as the first did, so
    it raises no error when the first has completed; the schema after the
    second run equals the schema after the first; and after a first run
    that has completed the second executes no [CREATE TABLE] and no
    [ADD CONSTRAINT] statement: every table and constraint is found by its
    existence check, every index and the extension by [IF NOT EXISTS]. *)
Theorem setup_all_twice_idempotent (w : world pg) :
  exists r w1 w2,
    provision false w = (r, w1)
    /\ provision false w1 = (r, w2)
    /\ schema w2 = schema w1
    /\ (r = Return tt -> creations w2 = creations w1).
Proof.
  destruct (provision_outcome w) as [(_ & w1 & Hfirst) | (Hext & Hav & w1 & Hfirst & Hs1)].
  - destruct (provision_establishes w) as (r & w' & Hrun & _ & Hpost & _).
    rewrite Hfirst in Hrun. injection Hrun as <- <-.
    pose proof (Hpost I eq_refl) as Hprov.
    destruct (provision_establishes w1) as (r2 & w2 & Hrun2 & _ & _ & Hnoop).
    destruct (Hnoop Hprov) as [-> [Hs Hc]].
    exists (Return tt), w1, w2. auto.
  - rewrite <- Hs1 in Hext, Hav.
    destruct (provision_outcome w1) as [([H | H] & _) | (_ & _ & w2 & Hsecond & Hs2)].
    + rewrite H in Hext. discriminate Hext.
    + rewrite H in Hav. discriminate Hav.
    + exists (Raise pgvector_unavailable), w1, w2.
      split; [ exact Hfirst | ]. split; [ exact Hsecond | ].
      split; [ exact Hs2 | discriminate ].
Qed.

Lemma setup_all_twice_idempotent_witness :
  exists r w1 w2,
    provision false fresh_world = (r, w1)
    /\ provision false w1 = (r, w2)
    /\ schema w2 = schema w1
    /\ (r = Return tt -> creations w2 = creations w1).
Proof. apply (setup_all_twice_idempotent fresh_world). Defined.

(** On a fresh database on a server that offers the extension the first
    run completes, and creates the five tables and the three foreign
    keys. *)
Example provision_fresh_completes :
  fst (provision false fresh_world) = Return tt
  /\ List.length (creations (snd (provision false fresh_world))) = 8%nat.
Proof. vm_compute. split; reflexivity. Qed.

(** * Further properties of the statement executor *)

(** X1: a successful batch acquires a connection and a cursor, hands the
    whole parameter list to one [executemany], commits after it, returns
    the row count read after the commit, closes the cursor and releases the
    connection once, last. *)
Theorem execute_many_success (W : Type) (self : Driver W) (query : sql)
    (params_list : list params) (w w' : world W) (n : Z) :
  execute_many self query params_list w = (Return n, w') ->
  params_list <> []
  /\ exists c cur,
       trace w' = trace w ++
         [ Getconn (Return c); Cursor c (Return cur);
           Executemany cur query params_list (Return tt); Commit c (Return tt);
           Rowcount cur n; Close cur (Return tt); Putconn c (Return tt) ].
Proof.
  intros H. destruct params_list as [ | row more ].
  - unfold_py. discriminate H.
  - split; [ discriminate | ].
    run_py; try congruence.
    read_trace. eauto.
Qed.

Lemma execute_many_success_witness :
  [[VInt 1; VStr "Alice"]; [VInt 2; VStr "Bob"]] <> []
  /\ exists c cur,
       trace (snd (execute_many (scripted (all_ok [] 2))
                     (SqlText "INSERT INTO users (id, name) VALUES (%s, %s)")
                     [[VInt 1; VStr "Alice"]; [VInt 2; VStr "Bob"]] start)) =
         trace start ++
         [ Getconn (Return c); Cursor c (Return cur);
           Executemany cur (SqlText "INSERT INTO users (id, name) VALUES (%s, %s)")
             [[VInt 1; VStr "Alice"]; [VInt 2; VStr "Bob"]] (Return tt);
           Commit c (Return tt); Rowcount cur 2; Close cur (Return tt);
           Putconn c (Return tt) ].
Proof.
  apply (execute_many_success unit (scripted (all_ok [] 2))
           (SqlText "INSERT INTO users (id, name) VALUES (%s, %s)")
           [[VInt 1; VStr "Alice"]; [VInt 2; VStr "Bob"]] start _ 2).
  reflexivity.
Defined.

Ltac close_bracketed :=
  eexists; split; [ reflexivity | ];
  first
    [ left; reflexivity
    | right; eexists _, _; split; [ reflexivity | ];
      split; [ reflexivity | ];
      first [ left; reflexivity | right; eexists _, _; split; reflexivity ] ].

(** X2: on every path of each of the three methods, successful or not,
    the driver calls are bracketed: at most one [getconn], made first, and
    at most one [putconn], of the connection that this [getconn] has
    returned.  No method releases a connection it has not acquired, or
    releases twice. *)
Theorem calls_are_bracketed (W : Type) (self : Driver W) (query : sql)
    (p : option params) (params_list : list params) (w : world W) :
  (exists evs, trace (snd (execute_query self query p w)) = trace w ++ evs /\ bracketed evs)
  /\ (exists evs, trace (snd (execute_update self query p w)) = trace w ++ evs /\ bracketed evs)
  /\ (exists evs,
        trace (snd (execute_many self query params_list w)) = trace w ++ evs /\ bracketed evs).
Proof.
  unfold bracketed. split; [ | split ].
  - run_py; simpl_py; rewrite <- ?app_assoc; cbn [app]; close_bracketed.
  - run_py; simpl_py; rewrite <- ?app_assoc; cbn [app]; close_bracketed.
  - destruct params_list as [ | row more ].
    + unfold_py. cbn. exists []. split; [ symmetry; apply app_nil_r | left; reflexivity ].
    + run_py; simpl_py; rewrite <- ?app_assoc; cbn [app]; close_bracketed.
Qed.

(** Symbolic execution of a mutating method up to the failing statement. *)
Ltac run_to_failure Hg Hc He :=
  unfold_py; simpl_py; rewrite Hg; simpl_py; rewrite Hc; simpl_py; rewrite He; simpl_py.

(** X3: when the statement of [execute_update] fails in one of the
    categories the method names, the method rolls back, then releases, and
    raises the classified error: ConnectionFailure for a connection-level
    failure, and ConstraintViolation, InvalidData or QueryError with the
    text of the failure for an integrity, a data or a programming error. *)
Theorem execute_update_failure_mapping (W : Type) (self : Driver W) (query : sql)
    (p : option params) (w : world W) (c : conn) (cur : cursor) (e : exn)
    (d1 d2 d3 d4 d5 : W) :
  pool_getconn self (driver_state w) = (Return c, d1) ->
  conn_cursor self c d1 = (Return cur, d2) ->
  cur_execute self cur query p d2 = (Raise e, d3) ->
  conn_rollback self c d3 = (Return tt, d4) ->
  pool_putconn self c d4 = (Return tt, d5) ->
  update_categorised e = true ->
  isinstance e PoolError = false ->
  exists x,
    execute_update self query p w =
      (Raise x,
       World d5 (trace w ++ [ Getconn (Return c); Cursor c (Return cur);
                              Execute cur query p (Raise e);
                              Rollback c (Return tt); Putconn c (Return tt) ]))
    /\ exn_cls x = Exception_
    /\ (isinstance e OperationalError = true ->
        str x = "Database connection failed during update, try again"
        /\ kind x = Some ConnectionFailure)
    /\ (isinstance e IntegrityError = true ->
        str x = "Data constraint violation: " +:+ str e /\ kind x = Some ConstraintViolation)
    /\ (isinstance e DataError = true ->
        str x = "Invalid data: " +:+ str e /\ kind x = Some InvalidData)
    /\ (isinstance e ProgrammingError = true ->
        str x = "Query error: " +:+ str e /\ kind x = Some QueryError).
Proof.
  intros Hg Hc He Hr Hp Hcat Hpool.
  run_to_failure Hg Hc He.
  destruct e as [cls msg]; destruct cls; try discriminate Hcat; try discriminate Hpool.
  all: cbn; rewrite Hr; cbn; rewrite Hp; cbn; rewrite <- ?app_assoc; cbn [app].
  all: eexists; split; [ reflexivity | ].
  all: repeat split; intros; try discriminate; reflexivity.
Qed.

Lemma execute_update_failure_mapping_witness :
  exists x,
    execute_update (scripted (execute_fails data_failure)) (SqlText "UPDATE t SET n = %s")
      (Some [VStr "x"]) start =
      (Raise x,
       World tt (trace start ++
                 [ Getconn (Return 1%nat); Cursor 1%nat (Return 2%nat);
                   Execute 2%nat (SqlText "UPDATE t SET n = %s") (Some [VStr "x"])
                     (Raise data_failure);
                   Rollback 1%nat (Return tt); Putconn 1%nat (Return tt) ]))
    /\ exn_cls x = Exception_
    /\ (isinstance data_failure OperationalError = true ->
        str x = "Database connection failed during update, try again"
        /\ kind x = Some ConnectionFailure)
    /\ (isinstance data_failure IntegrityError = true ->
        str x = "Data constraint violation: " +:+ str data_failure
        /\ kind x = Some ConstraintViolation)
    /\ (isinstance data_failure DataError = true ->
        str x = "Invalid data: " +:+ str data_failure /\ kind x = Some InvalidData)
    /\ (isinstance data_failure ProgrammingError = true ->
        str x = "Query error: " +:+ str data_failure /\ kind x = Some QueryError).
Proof.
  apply (execute_update_failure_mapping unit (scripted (execute_fails data_failure))
           (SqlText "UPDATE t SET n = %s") (Some [VStr "x"]) start 1%nat 2%nat
           data_failure tt tt tt tt tt); reflexivity.
Defined.

(** X4: when [executemany] fails in one of the categories [execute_many]
    names, the method rolls back, then releases, and raises the classified
    error with the text of the failure: ConnectionFailure,
    ConstraintViolation, InvalidData, QueryError, and InvalidParameters for
    a [TypeError] or [ValueError] of the parameter rows. *)
Theorem execute_many_failure_mapping (W : Type) (self : Driver W) (query : sql)
    (row : params) (more : list params) (w : world W) (c : conn) (cur : cursor) (e : exn)
    (d1 d2 d3 d4 d5 : W) :
  pool_getconn self (driver_state w) = (Return c, d1) ->
  conn_cursor self c d1 = (Return cur, d2) ->
  cur_executemany self cur query (row :: more) d2 = (Raise e, d3) ->
  conn_rollback self c d3 = (Return tt, d4) ->
  pool_putconn self c d4 = (Return tt, d5) ->
  batch_categorised e = true ->
  isinstance e PoolError = false ->
  exists x,
    execute_many self query (row :: more) w =
      (Raise x,
       World d5 (trace w ++ [ Getconn (Return c); Cursor c (Return cur);
                              Executemany cur query (row :: more) (Raise e);
                              Rollback c (Return tt); Putconn c (Return tt) ]))
    /\ exn_cls x = Exception_
    /\ (isinstance e OperationalError = true ->
        str x = "Database connection failed: " +:+ str e /\ kind x = Some ConnectionFailure)
    /\ (isinstance e IntegrityError = true ->
        str x = "Batch operation has failed - constraint violation: " +:+ str e
        /\ kind x = Some ConstraintViolation)
    /\ (isinstance e DataError = true ->
        str x = "Batch operation has failed - invalid data: " +:+ str e
        /\ kind x = Some InvalidData)
    /\ (isinstance e ProgrammingError = true ->
        str x = "Query error: " +:+ str e /\ kind x = Some QueryError)
    /\ (isinstance e TypeError = true \/ isinstance e ValueError = true ->
        str x = "Invalid parameters format: " +:+ str e /\ kind x = Some InvalidParameters).
Proof.
  intros Hg Hc He Hr Hp Hcat Hpool.
  run_to_failure Hg Hc He.
  destruct e as [cls msg]; destruct cls; try discriminate Hcat; try discriminate Hpool.
  all: cbn; rewrite Hr; cbn; rewrite Hp; cbn; rewrite <- ?app_assoc; cbn [app].
  all: eexists; split; [ reflexivity | ].
  all: repeat split; intros; try discriminate; try reflexivity.
  all: match goal with H : _ \/ _ |- _ => destruct H; discriminate end.
Qed.

Lemma execute_many_failure_mapping_witness :
  exists x,
    execute_many (scripted (execute_fails arity_failure)) (SqlText "INSERT INTO t VALUES (%s)")
      [[VInt 1; VInt 2]] start =
      (Raise x,
       World tt (trace start ++
                 [ Getconn (Return 1%nat); Cursor 1%nat (Return 2%nat);
                   Executemany 2%nat (SqlText "INSERT INTO t VALUES (%s)") [[VInt 1; VInt 2]]
                     (Raise arity_failure);
                   Rollback 1%nat (Return tt); Putconn 1%nat (Return tt) ]))
    /\ exn_cls x = Exception_
    /\ (isinstance arity_failure OperationalError = true ->
        str x = "Database connection failed: " +:+ str arity_failure
        /\ kind x = Some ConnectionFailure)
    /\ (isinstance arity_failure IntegrityError = true ->
        str x = "Batch operation has failed - constraint violation: " +:+ str arity_failure
        /\ kind x = Some ConstraintViolation)
    /\ (isinstance arity_failure DataError = true ->
        str x = "Batch operation has failed - invalid data: " +:+ str arity_failure
        /\ kind x = Some InvalidData)
    /\ (isinstance arity_failure ProgrammingError = true ->
        str x = "Query error: " +:+ str arity_failure /\ kind x = Some QueryError)
    /\ (isinstance arity_failure TypeError = true \/ isinstance arity_failure ValueError = true ->
        str x = "Invalid parameters format: " +:+ str arity_failure
        /\ kind x = Some InvalidParameters).
Proof.
  apply (execute_many_failure_mapping unit (scripted (execute_fails arity_failure))
           (SqlText "INSERT INTO t VALUES (%s)") [VInt 1; VInt 2] [] start 1%nat 2%nat
           arity_failure tt tt tt tt tt); reflexivity.
Defined.

(** X5: a failure of the acquisition itself.  When [getconn] raises, each
    method makes no other driver call (no cursor, no rollback, no release).
    For a [PoolError], [execute_update] and [execute_many] raise
    'Connection pool exhausted' and for an [OperationalError] 'Database
    initial connection failed, try again'; [execute_query] raises the same
    two texts behind the prefix of its catch-all clause, 'Unexpected
    database error: '. *)
Theorem acquisition_failure_mapping (W : Type) (self : Driver W) (query : sql)
    (p : option params) (row : params) (more : list params) (w : world W)
    (e : exn) (d : W) :
  pool_getconn self (driver_state w) = (Raise e, d) ->
  isinstance e PoolError = true \/ isinstance e OperationalError = true ->
  let text :=
    if isinstance e PoolError then "Connection pool exhausted"
    else "Database initial connection failed, try again" in
  let after := World d (trace w ++ [Getconn (Raise e)]) in
  execute_update self query p w = (Raise (Exn Exception_ text), after)
  /\ execute_many self query (row :: more) w = (Raise (Exn Exception_ text), after)
  /\ execute_query self query p w =
       (Raise (Exn Exception_ ("Unexpected database error: " +:+ text)), after)
  /\ kind (Exn Exception_ text)
     = Some (if isinstance e PoolError then PoolExhausted else ConnectionFailure)
  /\ kind (Exn Exception_ ("Unexpected database error: " +:+ text)) = Some Unexpected.
Proof.
  intros Hg Hcls. unfold_py; simpl_py. rewrite Hg; simpl_py.
  destruct e as [cls msg]; destruct cls; destruct Hcls as [Hcls | Hcls];
    try discriminate Hcls.
  all: cbn; repeat split.
Qed.

Lemma acquisition_failure_mapping_witness :
  let text :=
    if isinstance pool_exhausted PoolError then "Connection pool exhausted"
    else "Database initial connection failed, try again" in
  let after := World tt (trace start ++ [Getconn (Raise pool_exhausted)]) in
  execute_update (scripted (getconn_fails pool_exhausted)) (SqlText "DELETE FROM t") None start
  = (Raise (Exn Exception_ text), after)
  /\ execute_many (scripted (getconn_fails pool_exhausted)) (SqlText "DELETE FROM t")
       ([VInt 1] :: []) start
     = (Raise (Exn Exception_ text), after)
  /\ execute_query (scripted (getconn_fails pool_exhausted)) (SqlText "DELETE FROM t") None start
     = (Raise (Exn Exception_ ("Unexpected database error: " +:+ text)), after)
  /\ kind (Exn Exception_ text)
     = Some (if isinstance pool_exhausted PoolError then PoolExhausted else ConnectionFailure)
  /\ kind (Exn Exception_ ("Unexpected database error: " +:+ text)) = Some Unexpected.
Proof.
  apply (acquisition_failure_mapping unit (scripted (getconn_fails pool_exhausted))
           (SqlText "DELETE FROM t") None [VInt 1] [] start pool_exhausted tt).
  - reflexivity.
  - left. reflexivity.
Defined.

(** X6: an error of [execute_update] does not mean that nothing was
    committed.  When the statement and the commit succeed and closing the
    cursor then fails in a category the method names, the method issues a
    rollback after the commit, releases, and raises instead of returning the
    row count. *)
Theorem failure_after_commit (W : Type) (self : Driver W) (query : sql)
    (p : option params) (w : world W) (c : conn) (cur : cursor) (e : exn)
    (r1 r2 : outcome unit) (d1 d2 d3 d4 d5 d6 d7 : W) :
  pool_getconn self (driver_state w) = (Return c, d1) ->
  conn_cursor self c d1 = (Return cur, d2) ->
  cur_execute self cur query p d2 = (Return tt, d3) ->
  conn_commit self c d3 = (Return tt, d4) ->
  cur_close self cur d4 = (Raise e, d5) ->
  conn_rollback self c d5 = (r1, d6) ->
  pool_putconn self c d6 = (r2, d7) ->
  update_categorised e = true ->
  isinstance e PoolError = false ->
  (exists x, fst (execute_update self query p w) = Raise x)
  /\ trace (snd (execute_update self query p w)) =
       trace w ++ [ Getconn (Return c); Cursor c (Return cur);
                    Execute cur query p (Return tt); Commit c (Return tt);
                    Rowcount cur (cur_rowcount self cur d4); Close cur (Raise e);
                    Rollback c r1; Putconn c r2 ].
Proof.
  intros Hg Hc He Hm Hcl Hr Hp Hcat Hpool.
  unfold_py; simpl_py. rewrite Hg; simpl_py. rewrite Hc; simpl_py. rewrite He; simpl_py.
  rewrite Hm; simpl_py. rewrite Hcl; simpl_py.
  destruct e as [cls msg]; destruct cls; try discriminate Hcat; try discriminate Hpool.
  all: cbn; rewrite Hr; destruct r1; cbn; rewrite Hp; destruct r2; cbn;
    rewrite <- ?app_assoc; cbn [app]; split; eauto.
Qed.

Lemma failure_after_commit_witness :
  (exists x,
      fst (execute_update (scripted (close_fails connection_refused)) (SqlText "DELETE FROM t")
             None start) = Raise x)
  /\ trace (snd (execute_update (scripted (close_fails connection_refused))
                   (SqlText "DELETE FROM t") None start)) =
       trace start ++
       [ Getconn (Return 1%nat); Cursor 1%nat (Return 2%nat);
         Execute 2%nat (SqlText "DELETE FROM t") None (Return tt); Commit 1%nat (Return tt);
         Rowcount 2%nat (cur_rowcount (scripted (close_fails connection_refused)) 2%nat tt);
         Close 2%nat (Raise connection_refused);
         Rollback 1%nat (Return tt); Putconn 1%nat (Return tt) ].
Proof.
  apply (failure_after_commit unit (scripted (close_fails connection_refused))
           (SqlText "DELETE FROM t") None start 1%nat 2%nat connection_refused
           (Return tt) (Return tt) tt tt tt tt tt tt tt); reflexivity.
Defined.

(** X7: the release is part of the outcome.  When everything else has
    succeeded and [putconn] raises, a query loses its rows and an update
    its row count, although the update is committed: the call raises what
    [putconn] has raised, as it is. *)
Theorem release_failure_replaces_result (W : Type) (self : Driver W) (query : sql)
    (p : option params) (w : world W) (c : conn) (cur : cursor) (result : rows) (e : exn)
    (d1 d2 d3 d4 d5 d6 d4' d5' d6' : W) :
  pool_getconn self (driver_state w) = (Return c, d1) ->
  conn_cursor self c d1 = (Return cur, d2) ->
  cur_execute self cur query p d2 = (Return tt, d3) ->
  cur_fetchall self cur d3 = (Return result, d4) ->
  cur_close self cur d4 = (Return tt, d5) ->
  pool_putconn self c d5 = (Raise e, d6) ->
  conn_commit self c d3 = (Return tt, d4') ->
  cur_close self cur d4' = (Return tt, d5') ->
  pool_putconn self c d5' = (Raise e, d6') ->
  fst (execute_query self query p w) = Raise e
  /\ fst (execute_update self query p w) = Raise e
  /\ List.filter is_commit (trace (snd (execute_update self query p w)))
     = List.filter is_commit (trace w) ++ [Commit c (Return tt)].
Proof.
  intros Hg Hc He Hf Hcl Hp Hm Hcl' Hp'.
  unfold_py; simpl_py. rewrite Hg; simpl_py. rewrite Hc; simpl_py. rewrite He; simpl_py.
  rewrite Hf, Hm; simpl_py. rewrite Hcl, Hcl'; simpl_py. rewrite Hp, Hp'; simpl_py.
  repeat split.
  rewrite !List.filter_app. cbn. rewrite !app_nil_r. reflexivity.
Qed.

Lemma release_failure_replaces_result_witness :
  fst (execute_query (scripted (putconn_fails pool_exhausted)) (SqlText "SELECT 1") None start)
  = Raise pool_exhausted
  /\ fst (execute_update (scripted (putconn_fails pool_exhausted)) (SqlText "SELECT 1") None
            start) = Raise pool_exhausted
  /\ List.filter is_commit
       (trace (snd (execute_update (scripted (putconn_fails pool_exhausted))
                      (SqlText "SELECT 1") None start)))
     = List.filter is_commit (trace start) ++ [Commit 1%nat (Return tt)].
Proof.
  apply (release_failure_replaces_result unit (scripted (putconn_fails pool_exhausted))
           (SqlText "SELECT 1") None start 1%nat 2%nat [[VInt 7]] pool_exhausted
           tt tt tt tt tt tt tt tt tt); reflexivity.
Defined.

(** X8: [_get_connection_and_cursor] makes at most two driver calls,
    [getconn] and then [cursor] on the connection it got, and never
    [putconn].  It returns exactly that connection and cursor; a
    [PoolError] or an [OperationalError] of either call is replaced by a
    plain [Exception] with a fixed text, and every other failure leaves the
    helper as it was raised. *)
Theorem helper_outcomes (W : Type) (self : Driver W) (w : world W) :
  let run := _get_connection_and_cursor self w in
  (exists c cur,
      fst run = Return (c, cur)
      /\ trace (snd run) = trace w ++ [Getconn (Return c); Cursor c (Return cur)])
  \/ (exists e x,
        fst run = Raise x
        /\ (trace (snd run) = trace w ++ [Getconn (Raise e)]
            \/ exists c, trace (snd run) = trace w ++ [Getconn (Return c); Cursor c (Raise e)])
        /\ x = (if isinstance e PoolError then Exn Exception_ "Connection pool exhausted"
                else if isinstance e OperationalError
                     then Exn Exception_ "Database initial connection failed, try again"
                     else e)).
Proof.
  cbv zeta. unfold_py; simpl_py.
  destruct (pool_getconn self (driver_state w)) as [[c | e] d1]; simpl_py.
  - destruct (conn_cursor self c d1) as [[cur | e] d2]; simpl_py.
    + left. exists c, cur. rewrite <- app_assoc. auto.
    + right. exists e. destruct e as [cls msg]; destruct cls; cbn;
        eexists; (split; [ reflexivity | ]); rewrite <- app_assoc;
        (split; [ right; eauto | reflexivity ]).
  - right. exists e. destruct e as [cls msg]; destruct cls; cbn;
      eexists; (split; [ reflexivity | ]); (split; [ left; reflexivity | reflexivity ]).
Qed.

(** * Further properties of the provisioner *)

Lemma recorded_run {S A : Type} (m : M S A) (req : request) (s : S) (log : list request) :
  recorded m req (s, log) = (fst (m s), (snd (m s), log ++ [req])).
Proof. unfold recorded. cbn [fst snd]. destruct (m s); reflexivity. Qed.

Lemma index_round_recorded (S : Type) (db_execute_update : sql -> option params -> M S Z)
    (ix : string * string * string) (s : S) (log : list request) :
  exists s',
    index_round (recorded_update db_execute_update) ix (s, log)
    = (Return tt,
       (s', log ++ [Update (CreateIndexIfNotExists (fst (fst ix)) (snd (fst ix)) (snd ix))
                      None])).
Proof.
  destruct ix as [[i t] c]. unfold index_round. rewrite try_except_catch_all.
  unfold bind, recorded_update. rewrite recorded_run. cbn [fst snd].
  destruct (db_execute_update (CreateIndexIfNotExists i t c) None s) as [[n | e] s1];
    cbn [fst snd]; [ eauto | ].
  destruct (contains "already exists" (lower (str e))); eauto.
Qed.

Lemma drop_round_recorded (S : Type) (db_execute_update : sql -> option params -> M S Z)
    (t : string) (s : S) (log : list request) :
  exists s',
    try_except
      (recorded_update db_execute_update (DropTableIfExistsCascade t) None ;;; ret tt)
      [ ([Exception_], fun _ => ret tt) ] (s, log)
    = (Return tt, (s', log ++ [Update (DropTableIfExistsCascade t) None])).
Proof.
  rewrite try_except_catch_all. unfold bind, recorded_update. rewrite recorded_run.
  destruct (db_execute_update (DropTableIfExistsCascade t) None s) as [[n | e] s1];
    cbn [fst snd]; eauto.
Qed.

(** A loop whose rounds each return after one request. *)
Lemma for_each_recorded {S A : Type} (body : A -> M (S * list request) unit)
    (req : A -> request) :
  (forall x s log, exists s', body x (s, log) = (Return tt, (s', log ++ [req x]))) ->
  forall (l : list A) s log,
    exists s', for_each l body (s, log) = (Return tt, (s', log ++ map req l)).
Proof.
  intros Hbody. induction l as [ | x l IH ]; intros s log.
  - exists s. cbn. rewrite app_nil_r. reflexivity.
  - cbn [for_each map]. unfold bind. destruct (Hbody x s log) as [s1 ->].
    destruct (IH s1 (log ++ [req x])) as [s' ->].
    exists s'. rewrite <- app_assoc. reflexivity.
Qed.

(** X9: [_create_indexes] never raises.  Whatever the database does with
    each statement, the method attempts the nine ordinary indexes in the
    order of the source and then the vector index, and returns. *)
Theorem create_indexes_never_raises (S : Type) (db_execute_update : sql -> option params -> M S Z)
    (s : S) (log : list request) :
  exists s',
    _create_indexes (recorded_update db_execute_update) (s, log)
    = (Return tt, (s', log ++ index_requests)).
Proof.
  unfold _create_indexes, index_requests. unfold bind at 1.
  destruct (for_each_recorded (index_round (recorded_update db_execute_update))
              (fun ix => Update (CreateIndexIfNotExists (fst (fst ix)) (snd (fst ix)) (snd ix))
                           None)
              (index_round_recorded S db_execute_update)
              indexes_to_create s log) as [s1 ->].
  rewrite try_except_catch_all. unfold bind at 1. unfold recorded_update. rewrite recorded_run.
  destruct (db_execute_update CreateVectorIndexIfNotExists None s1) as [[n | e] s2];
    cbn [fst snd].
  - exists s2. rewrite <- app_assoc. reflexivity.
  - exists s2. rewrite <- app_assoc.
    destruct (contains "already exists" (lower (str e))); [ reflexivity | ].
    destruct (_ && _); reflexivity.
Qed.

(** X10: [_drop_all_tables] drops nothing unless the answer at the prompt
    is 'yes' in some letter case.  It prompts exactly once; after any other
    answer it makes no request of the database; after 'yes' it attempts the
    five drops, dependants first, whatever fails, and returns; and a failure
    of the prompt itself leaves the method before any request. *)
Theorem drop_all_tables_is_gated (S : Type) (db_execute_update : sql -> option params -> M S Z)
    (input : M S string) (s : S) (log : list request) :
  match input s with
  | (Return response, s1) =>
      if String.eqb (lower response) "yes"
      then exists s',
             _drop_all_tables (recorded_update db_execute_update) (recorded_input input) (s, log)
             = (Return tt, (s', log ++ Prompt :: drop_requests))
      else _drop_all_tables (recorded_update db_execute_update) (recorded_input input) (s, log)
           = (Return tt, (s1, log ++ [Prompt]))
  | (Raise e, s1) =>
      _drop_all_tables (recorded_update db_execute_update) (recorded_input input) (s, log)
      = (Raise e, (s1, log ++ [Prompt]))
  end.
Proof.
  destruct (input s) as [[response | e] s1] eqn:Hin.
  - destruct (String.eqb (lower response) "yes") eqn:Hyes.
    + destruct (for_each_recorded
                  (fun table =>
                     try_except
                       (recorded_update db_execute_update (DropTableIfExistsCascade table)
                          None ;;; ret tt)
                       [ ([Exception_], fun _ => ret tt) ])
                  (fun t => Update (DropTableIfExistsCascade t) None)
                  (drop_round_recorded S db_execute_update)
                  managed_tables s1 (log ++ [Prompt])) as [s' Hloop].
      exists s'. unfold _drop_all_tables, bind, recorded_input. rewrite recorded_run, Hin.
      cbn [fst snd]. rewrite Hyes. cbn [negb]. unfold drop_requests.
      rewrite <- app_assoc in Hloop. exact Hloop.
    + unfold _drop_all_tables, bind, recorded_input. rewrite recorded_run, Hin.
      cbn [fst snd]. rewrite Hyes. reflexivity.
  - unfold _drop_all_tables, bind, recorded_input. rewrite recorded_run, Hin. reflexivity.
Qed.

(** *** What a computation of the provisioner asks *)

Section IssuesOnly.

Context {S : Type} (P : request -> Prop).

Lemma issues_ret {A : Type} (a : A) : issues_only (S := S) P (ret a).
Proof. intros sl. exists []. cbn. rewrite app_nil_r. auto. Qed.

Lemma issues_raise {A : Type} (e : exn) : issues_only (S := S) (A := A) P (raise e).
Proof. intros sl. exists []. cbn. rewrite app_nil_r. auto. Qed.

Lemma issues_bind {A B : Type} (m : M (S * list request) A) (k : A -> M (S * list request) B) :
  issues_only P m -> (forall a, issues_only P (k a)) -> issues_only P (bind m k).
Proof.
  intros Hm Hk sl. destruct (Hm sl) as (l1 & H1 & HP1). unfold bind.
  destruct (m sl) as [[a | e] sl1]; cbn [snd] in *.
  - destruct (Hk a sl1) as (l2 & H2 & HP2).
    exists (l1 ++ l2). rewrite H2, H1, <- app_assoc. split; [ reflexivity | ].
    apply Forall_app; auto.
  - exists l1. auto.
Qed.

Lemma issues_dispatch {A : Type} (clauses : list (clause (S * list request) A)) (e : exn) :
  Forall (fun cl => forall e, issues_only P (snd cl e)) clauses ->
  issues_only P (dispatch clauses e).
Proof.
  induction 1 as [ | [classes handler] clauses Hcl _ IH ]; cbn [dispatch].
  - apply issues_raise.
  - destruct (existsb (isinstance e) classes); [ apply Hcl | exact IH ].
Qed.

Lemma issues_try_except {A : Type} (body : M (S * list request) A)
    (clauses : list (clause (S * list request) A)) :
  issues_only P body ->
  Forall (fun cl => forall e, issues_only P (snd cl e)) clauses ->
  issues_only P (try_except body clauses).
Proof.
  intros Hb Hc sl. destruct (Hb sl) as (l1 & H1 & HP1). unfold try_except.
  destruct (body sl) as [[a | e] sl1]; cbn [snd] in *.
  - exists l1. auto.
  - destruct (issues_dispatch clauses e Hc sl1) as (l2 & H2 & HP2).
    exists (l1 ++ l2). rewrite H2, H1, <- app_assoc. split; [ reflexivity | ].
    apply Forall_app; auto.
Qed.

Lemma issues_for_each {A : Type} (l : list A) (body : A -> M (S * list request) unit) :
  (forall x, issues_only P (body x)) -> issues_only P (for_each l body).
Proof.
  intros Hb. induction l as [ | x l IH ]; cbn [for_each].
  - apply issues_ret.
  - apply issues_bind; [ apply Hb | intros _; exact IH ].
Qed.

Lemma issues_recorded {A : Type} (m : M S A) (req : request) :
  P req -> issues_only P (recorded m req).
Proof.
  intros Hreq [s log]. exists [req]. rewrite recorded_run. cbn [snd]. auto.
Qed.

Lemma issues_first_cell (result : rows) : issues_only (S := S) P (first_cell result).
Proof.
  unfold first_cell. apply issues_bind.
  - destruct result; [ apply issues_raise | apply issues_ret ].
  - intros row. destruct row; [ apply issues_raise | apply issues_ret ].
Qed.

End IssuesOnly.

Lemma issues_only_run {S A : Type} (P : request -> Prop) (m : M (S * list request) A)
    (sl : S * list request) :
  issues_only P m -> exists l, snd (snd (m sl)) = snd sl ++ l /\ Forall P l.
Proof. intros H. apply H. Qed.

Ltac issues :=
  repeat first
    [ apply issues_ret
    | apply issues_raise
    | apply issues_first_cell
    | apply issues_recorded; cbn; solve [ auto ]
    | apply issues_bind; [ | intros ? ]
    | apply issues_try_except; [ | repeat constructor; cbn [snd]; intros ? ]
    | apply issues_for_each; intros ?
    | match goal with
      | |- issues_only _ (match ?x with _ => _ end) => destruct x
      end ].

(** X11: a full setup without [drop_existing] never asks for the
    confirmation and never issues a [DROP TABLE], whatever the database
    answers and wherever the setup stops. *)
Theorem setup_all_without_drop_never_drops (S : Type)
    (db_execute_query : sql -> option params -> M S rows)
    (db_execute_update : sql -> option params -> M S Z) (input : M S string)
    (s : S) (log : list request) :
  exists l,
    snd (snd (setup_all (recorded_query db_execute_query) (recorded_update db_execute_update)
                (recorded_input input) false (s, log))) = log ++ l
    /\ Forall (fun req => is_prompt req = false /\ is_drop_request req = false) l.
Proof.
  apply (issues_only_run _ _ (s, log)).
  unfold setup_all, _setup_pgvector, _create_analysis_registry, _create_stg_rejects,
    _create_insights_cache, _create_query_history, _create_embeddings,
    create_table_if_absent, _add_foreign_keys, foreign_key_round, _create_indexes,
    index_round, _table_exists, _constraint_exists, recorded_query, recorded_update.
  issues.
Qed.

Lemma check_recorded {S : Type} (db_execute_query : sql -> option params -> M S rows)
    (query : sql) (p : option params) (found : bool) (s : S) (log : list request) :
  (exists v row more s',
      db_execute_query query p s = (Return ((v :: row) :: more), s') /\ truthy v = found) ->
  exists v s',
    (result <- recorded_query db_execute_query query p ;; first_cell result) (s, log)
    = (Return v, (s', log ++ [Query query p]))
    /\ truthy v = found.
Proof.
  intros (v & row & more & s' & Hrun & Hv).
  exists v, s'. unfold bind, recorded_query. rewrite recorded_run, Hrun. cbn. auto.
Qed.

(** X12: when the database finds every table and constraint that the
    setup asks about, a full setup without [drop_existing] issues no
    [CREATE TABLE] and no [ALTER TABLE] statement, whatever else the
    database does. *)
Theorem setup_all_creates_nothing_found (S : Type)
    (db_execute_query : sql -> option params -> M S rows)
    (db_execute_update : sql -> option params -> M S Z) (input : M S string)
    (s : S) (log : list request) :
  finds_everything db_execute_query ->
  exists l,
    snd (snd (setup_all (recorded_query db_execute_query) (recorded_update db_execute_update)
                (recorded_input input) false (s, log))) = log ++ l
    /\ Forall (fun req => is_creation_request req = false) l.
Proof.
  intros Hfound.
  assert (Htable : forall t,
             issues_only (fun req => is_creation_request req = false)
               (create_table_if_absent (recorded_query db_execute_query)
                  (recorded_update db_execute_update) t)).
  { intros t [s0 log0]. unfold create_table_if_absent, _table_exists.
    destruct (check_recorded db_execute_query SelectTableExists (Some [VStr t]) true s0 log0
                (Hfound SelectTableExists _ _ eq_refl)) as (v & s' & Hrun & Hv).
    unfold bind at 1. rewrite Hrun, Hv. cbn. eexists. split; [ reflexivity | ].
    repeat constructor. }
  assert (Hfk : forall fk,
             issues_only (fun req => is_creation_request req = false)
               (foreign_key_round (recorded_query db_execute_query)
                  (recorded_update db_execute_update) fk)).
  { intros [[t col] k] [s0 log0]. unfold foreign_key_round, _constraint_exists.
    destruct (check_recorded db_execute_query SelectConstraintExists
                (Some [VStr t; VStr k]) true s0 log0
                (Hfound SelectConstraintExists _ _ eq_refl))
      as (v & s' & Hrun & Hv).
    unfold bind at 1. rewrite Hrun, Hv. cbn. eexists. split; [ reflexivity | ].
    repeat constructor. }
  apply (issues_only_run _ _ (s, log)).
  unfold setup_all, _create_analysis_registry, _create_stg_rejects,
    _create_insights_cache, _create_query_history, _create_embeddings, _add_foreign_keys.
  apply issues_bind; [ apply issues_ret | intros _ ].
  apply issues_bind; [ unfold _setup_pgvector, recorded_update; issues | intros _ ].
  do 5 (apply issues_bind; [ apply Htable | intros _ ]).
  apply issues_bind; [ apply issues_for_each; exact Hfk | intros _ ].
  unfold _create_indexes, index_round, recorded_update. issues.
Qed.

(** On a database that accepts every statement and finds every table and
    constraint, the setup runs to its end: the extension, the five table
    checks, the three constraint checks and the ten index statements. *)
Lemma setup_all_creates_nothing_found_witness :
  (exists l,
     snd (snd (setup_all (recorded_query (existence_query everything_found))
                 (recorded_update accepting_update)
                 (recorded_input (console "no")) false (tt, []))) = [] ++ l
     /\ Forall (fun req => is_creation_request req = false) l)
  /\ setup_all (recorded_query (existence_query everything_found))
       (recorded_update accepting_update) (recorded_input (console "no")) false (tt, [])
     = (Return tt,
        (tt,
         Update (CreateExtensionIfNotExists "vector") None
         :: map (fun t => Query SelectTableExists (Some [VStr t])) required_tables
         ++ map (fun fk => Query SelectConstraintExists
                             (Some [VStr (fst (fst fk)); VStr (snd fk)]))
              foreign_keys
         ++ index_requests)).
Proof.
  split.
  - apply (setup_all_creates_nothing_found unit (existence_query everything_found)
             accepting_update (console "no") tt []).
    intros query p s Hq. exists (VBool true), [], [], s.
    unfold existence_query. rewrite Hq. split; reflexivity.
  - reflexivity.
Defined.



(** X14: a [vector] extension that cannot be created stops the whole
    setup before any table is touched.  When [CREATE EXTENSION] fails with
    an error whose text does not say 'already exists', [setup_all] raises
    that error as it is, after this one request. *)
Theorem setup_all_stops_without_pgvector (S : Type)
    (db_execute_query : sql -> option params -> M S rows)
    (db_execute_update : sql -> option params -> M S Z) (input : M S string)
    (e : exn) (s s1 : S) (log : list request) :
  db_execute_update (CreateExtensionIfNotExists "vector") None s = (Raise e, s1) ->
  contains "already exists" (lower (str e)) = false ->
  setup_all (recorded_query db_execute_query) (recorded_update db_execute_update)
    (recorded_input input) false (s, log)
  = (Raise e, (s1, log ++ [Update (CreateExtensionIfNotExists "vector") None])).
Proof.
  intros Hrun Hmsg. unfold setup_all. unfold bind at 1. cbn [ret]. unfold bind at 1.
  unfold _setup_pgvector. rewrite try_except_catch_all. unfold bind at 1.
  unfold recorded_update. rewrite recorded_run, Hrun. cbn [fst snd]. rewrite Hmsg.
  reflexivity.
Qed.

Lemma setup_all_stops_without_pgvector_witness :
  setup_all (recorded_query (constant_query nothing_found))
    (recorded_update (failing_update permission_denied)) (recorded_input (console "no"))
    false (tt, [])
  = (Raise permission_denied, (tt, [] ++ [Update (CreateExtensionIfNotExists "vector") None])).
Proof.
  apply (setup_all_stops_without_pgvector unit (constant_query nothing_found)
           (failing_update permission_denied) (console "no") permission_denied tt tt []).
  - reflexivity.
  - vm_compute. reflexivity.
Defined.

(** X15: [verify_setup] does not stop at the first missing table.
    Whenever the existence checks are answered, it asks the existence of
    all five required tables, in the order of the source, whatever the
    answers and whatever the counts do, and its last request is the check
    of the extension. *)
Theorem verify_setup_checks_everything (S : Type)
    (db_execute_query : sql -> option params -> M S rows) (s : S) (log : list request) :
  (forall t s, exists v row more s',
      db_execute_query SelectTableExists (Some [VStr t]) s
      = (Return ((v :: row) :: more), s')) ->
  exists b s' l,
    verify_setup (recorded_query db_execute_query) (s, log)
    = (Return b, (s', log ++ l ++ [Query (SelectExtensionExists "vector") None]))
    /\ List.filter is_exists_query l = exists_queries.
Proof.
  intros Hanswer.
  assert (Hround : forall all_good t s0 log0,
             exists b s' l,
               verify_round (recorded_query db_execute_query) all_good t (s0, log0)
               = (Return b, (s', log0 ++ l))
               /\ List.filter is_exists_query l = [Query SelectTableExists (Some [VStr t])]).
  { intros all_good t s0 log0. unfold verify_round, _table_exists.
    destruct (Hanswer t s0) as (v & row & more & s1 & Hrun).
    unfold bind at 1. unfold bind at 1. unfold recorded_query at 1.
    rewrite recorded_run, Hrun. cbn [fst snd first_cell list_getitem0 tuple_getitem0 bind ret].
    destruct (truthy v).
    - rewrite try_except_catch_all. unfold bind at 1. unfold recorded_query.
      rewrite recorded_run.
      destruct (db_execute_query (SelectCount t) None s1) as [[count | e] s2]; cbn [fst snd].
      + unfold bind. rewrite first_cell_run.
        destruct (first_cell_of (Return count));
          [ | destruct count ];
          eexists _, _, [_; _]; (split; [ rewrite <- app_assoc; reflexivity | reflexivity ]).
      + eexists _, _, [_; _]. split; [ rewrite <- app_assoc; reflexivity | reflexivity ].
    - eexists _, _, [_]. split; reflexivity. }
  assert (Hloop : forall ts all_good s0 log0,
             exists b s' l,
               for_fold ts all_good (verify_round (recorded_query db_execute_query)) (s0, log0)
               = (Return b, (s', log0 ++ l))
               /\ List.filter is_exists_query l
                  = map (fun t => Query SelectTableExists (Some [VStr t])) ts).
  { induction ts as [ | t ts IH ]; intros all_good s0 log0.
    - exists all_good, s0, []. cbn. rewrite app_nil_r. auto.
    - cbn [for_fold map]. unfold bind.
      destruct (Hround all_good t s0 log0) as (b1 & s1 & l1 & -> & Hl1).
      destruct (IH b1 s1 (log0 ++ l1)) as (b & s' & l2 & -> & Hl2).
      exists b, s', (l1 ++ l2). rewrite <- app_assoc. split; [ reflexivity | ].
      rewrite List.filter_app, Hl1, Hl2. reflexivity. }
  unfold verify_setup. unfold bind at 1.
  destruct (Hloop required_tables true s log) as (b & s1 & l & -> & Hl).
  unfold bind at 1. rewrite try_except_catch_all. unfold bind at 1. unfold recorded_query.
  rewrite recorded_run.
  destruct (db_execute_query (SelectExtensionExists "vector") None s1) as [[result | e] s2];
    cbn [fst snd].
  - unfold bind. rewrite first_cell_run.
    destruct (first_cell_of (Return result)) as [v | ];
      [ destruct (truthy v) | destruct result ];
      exists b, s2, l; (split; [ rewrite <- app_assoc; reflexivity | exact Hl ]).
  - exists b, s2, l. split; [ rewrite <- app_assoc; reflexivity | exact Hl ].
Qed.

Lemma verify_setup_checks_everything_witness :
  exists b s' l,
    verify_setup (recorded_query one_table_missing) (tt, [])
    = (Return b, (s', [] ++ l ++ [Query (SelectExtensionExists "vector") None]))
    /\ List.filter is_exists_query l = exists_queries.
Proof.
  apply (verify_setup_checks_everything unit one_table_missing tt []).
  intros t s. exists (VBool (negb (String.eqb t "analysis_registry"))), [], [], s.
  reflexivity.
Defined.

(** * Further properties on the modelled server and pool *)

#[local] Transparent has_table.

Lemma pg_count (t : string) (w : world pg) :
  has_table (schema w) t = true ->
  exists n w',
    execute_query postgres (SelectCount t) None w = (Return [[VInt n]], w')
    /\ schema w' = schema w.
Proof.
  destruct w as [[c f a] tr]. unfold schema, has_table. cbn [driver_state cat].
  intros H. apply bool_decide_eq_true in H. destruct H as [n Hn].
  exists n. unfold_postgres. cbn [pg_exec]. rewrite Hn. cbn. eauto.
Qed.

#[local] Opaque has_table.

Lemma pg_extension_check (w : world pg) :
  exists w',
    try_except
      (result <- execute_query postgres (SelectExtensionExists "vector") None ;;
       installed <- first_cell result ;;
       if truthy installed then ret tt else ret tt)
      [ ([Exception_], fun _ => ret tt) ] w = (Return tt, w')
    /\ schema w' = schema w.
Proof.
  destruct w as [[c f a] tr]. rewrite try_except_catch_all.
  unfold bind at 1. unfold_postgres. cbn [pg_exec answer pg_run]. cbn -[has_extension].
  destruct (has_extension c "vector"); eexists; split; reflexivity.
Qed.

Lemma pg_verify_round (all_good : bool) (t : string) (w : world pg) :
  exists w',
    verify_round (execute_query postgres) all_good t w
    = (Return (all_good && has_table (schema w) t), w')
    /\ schema w' = schema w.
Proof.
  unfold verify_round. unfold bind at 1.
  destruct (pg_table_exists t w) as (w1 & -> & Hs1 & _).
  cbn [truthy]. destruct (has_table (schema w) t) eqn:Ht.
  - rewrite try_except_catch_all. unfold bind at 1.
    rewrite <- Hs1 in Ht. destruct (pg_count t w1 Ht) as (n & w2 & -> & Hs2).
    exists w2. rewrite andb_true_r. split; [ reflexivity | congruence ].
  - exists w1. rewrite andb_false_r. split; [ reflexivity | exact Hs1 ].
Qed.

Lemma pg_verify_rounds (ts : list string) :
  forall (all_good : bool) (w : world pg),
    exists w',
      for_fold ts all_good (verify_round (execute_query postgres)) w
      = (Return (all_good && forallb (has_table (schema w)) ts), w')
      /\ schema w' = schema w.
Proof.
  induction ts as [ | t ts IH ]; intros all_good w.
  - exists w. cbn. rewrite andb_true_r. auto.
  - cbn [for_fold forallb]. unfold bind.
    destruct (pg_verify_round all_good t w) as (w1 & -> & Hs1).
    destruct (IH (all_good && has_table (schema w) t) w1) as (w2 & -> & Hs2).
    exists w2. rewrite Hs1, andb_assoc. split; [ reflexivity | congruence ].
Qed.

(** X16: on the server, [verify_setup] reads the catalog and nothing
    else: it returns whether the five required tables are in the schema, and
    leaves the schema as it was. *)
Theorem verify_setup_reads_schema (w : world pg) :
  exists w',
    verify_setup (execute_query postgres) w
    = (Return (forallb (has_table (schema w)) required_tables), w')
    /\ schema w' = schema w.
Proof.
  unfold verify_setup. unfold bind at 1.
  destruct (pg_verify_rounds required_tables true w) as (w1 & -> & Hs1).
  rewrite andb_true_l. unfold bind at 1.
  destruct (pg_extension_check w1) as (w2 & -> & Hs2).
  exists w2. split; [ reflexivity | congruence ].
Qed.

(** X17: a setup that has completed verifies.  After a full setup
    without [drop_existing] has returned, from any schema, [verify_setup]
    returns [True]. *)
Theorem completed_setup_verifies (w w1 : world pg) :
  provision false w = (Return tt, w1) ->
  fst (verify_setup (execute_query postgres) w1) = Return true.
Proof.
  intros Hrun.
  destruct (provision_establishes w) as (r & w' & Hrun' & _ & Hpost & _).
  rewrite Hrun in Hrun'. injection Hrun' as <- <-.
  destruct (Hpost I eq_refl) as (_ & Htables & _).
  unfold verify_setup. unfold bind at 1.
  destruct (pg_verify_rounds required_tables true w1) as (w2 & -> & _).
  rewrite andb_true_l. unfold bind at 1.
  destruct (pg_extension_check w2) as (w3 & -> & _). unfold ret. cbn [fst].
  f_equal. apply forallb_forall. intros t Ht.
  rewrite List.Forall_forall in Htables. apply Htables. exact Ht.
Qed.

Lemma completed_setup_verifies_witness :
  fst (verify_setup (execute_query postgres) (snd (provision false fresh_world))) = Return true.
Proof.
  apply (completed_setup_verifies fresh_world (snd (provision false fresh_world))).
  vm_compute. reflexivity.
Defined.

Lemma acquire_outcome (p : pool) :
  (exists p', pool_step p Acquire = (Return tt, p')
              /\ outstanding p' = S (outstanding p) /\ closed p' = false)
  \/ (exists e, pool_step p Acquire = (Raise e, p)).
Proof.
  unfold pool_step. destruct (closed p); [ right; eauto | ].
  destruct (0 <? idle p)%nat; [ left; eexists; repeat split | ].
  destruct (outstanding p <? maxconn p)%nat; [ left; eexists; repeat split | right; eauto ].
Qed.

Lemma release_outcome (p : pool) (n : nat) :
  outstanding p = S n -> closed p = false ->
  exists p', pool_step p Release = (Return tt, p') /\ outstanding p' = n.
Proof.
  intros Hn Hc. unfold pool_step. rewrite Hc, Hn. cbn.
  eexists. split; [ reflexivity | ]. cbn. lia.
Qed.

(** X18: on the pool, a call that gets its cursor is balanced.  Whatever
    the statement, the commit, the rollback and the cursor do afterwards,
    [execute_query], [execute_update] and [execute_many] leave the number of
    outstanding connections of the pool as they found it. *)
Theorem pooled_call_is_balanced (s : script) (query : sql) (p : option params)
    (params_list : list params) (cur : cursor) (w : world pool) :
  on_cursor s = Return cur ->
  outstanding (driver_state (snd (execute_query (pooled s) query p w)))
  = outstanding (driver_state w)
  /\ outstanding (driver_state (snd (execute_update (pooled s) query p w)))
     = outstanding (driver_state w)
  /\ outstanding (driver_state (snd (execute_many (pooled s) query params_list w)))
     = outstanding (driver_state w).
Proof.
  intros Hcur. destruct w as [pl tr].
  assert (Hend : forall pl1, pool_step pl Acquire = (Return tt, pl1) ->
                 outstanding pl1 = S (outstanding pl) -> closed pl1 = false ->
                 outstanding (snd (pool_step pl1 Release)) = outstanding pl).
  { intros pl1 _ Hn Hc. destruct (release_outcome pl1 _ Hn Hc) as (p' & -> & Hp'). exact Hp'. }
  destruct (acquire_outcome pl) as [(pl1 & Hacq & Hn & Hc) | (e & Hacq)].
  - specialize (Hend pl1 Hacq Hn Hc).
    destruct (pool_step pl1 Release) as [rel pl2] eqn:Hrel. cbn [snd] in Hend.
    repeat split.
    + unfold_py. cbn [pooled pool_getconn conn_cursor cur_execute cur_fetchall cur_close
                        pool_putconn driver_state trace fst snd].
      rewrite Hacq, Hcur. simpl_py.
      destruct (on_execute s) as [[] | ex]; simpl_py;
        [ destruct (on_fetchall s) as [res | ex]; simpl_py;
          [ destruct (on_close s) as [[] | ex]; simpl_py | ] | ].
      all: try (destruct ex as [cls msg]; destruct cls; cbn -[pool_step]).
      all: rewrite Hrel; destruct rel; exact Hend.
    + unfold_py. cbn [pooled pool_getconn conn_cursor cur_execute conn_commit conn_rollback
                        cur_rowcount cur_close pool_putconn driver_state trace fst snd].
      rewrite Hacq, Hcur. simpl_py.
      destruct (on_execute s) as [[] | ex]; simpl_py;
        [ destruct (on_commit s) as [[] | ex]; simpl_py;
          [ destruct (on_close s) as [[] | ex]; simpl_py | ] | ].
      all: try (destruct ex as [cls msg]; destruct cls; cbn -[pool_step]).
      all: try (destruct (on_rollback s) as [[] | er]; cbn -[pool_step]).
      all: rewrite Hrel; destruct rel; exact Hend.
    + destruct params_list as [ | row more ]; [ reflexivity | ].
      unfold_py. cbn [pooled pool_getconn conn_cursor cur_executemany conn_commit conn_rollback
                        cur_rowcount cur_close pool_putconn driver_state trace fst snd].
      rewrite Hacq, Hcur. simpl_py.
      destruct (on_execute s) as [[] | ex]; simpl_py;
        [ destruct (on_commit s) as [[] | ex]; simpl_py;
          [ destruct (on_close s) as [[] | ex]; simpl_py | ] | ].
      all: try (destruct ex as [cls msg]; destruct cls; cbn -[pool_step]).
      all: try (destruct (on_rollback s) as [[] | er]; cbn -[pool_step]).
      all: rewrite Hrel; destruct rel; exact Hend.
  - repeat split.
    3: destruct params_list as [ | row more ]; [ reflexivity | ].
    all: unfold_py; cbn [pooled pool_getconn driver_state trace fst snd];
      rewrite Hacq; simpl_py;
      destruct e as [cls msg]; destruct cls; reflexivity.
Qed.

Lemma pooled_call_is_balanced_witness :
  outstanding (driver_state (snd (execute_query (pooled (execute_fails integrity_failure))
                                    (SqlText "SELECT 1") None
                                    (World (ThreadedConnectionPool 1 10 ∅) []))))
  = outstanding (driver_state (World (ThreadedConnectionPool 1 10 ∅) []))
  /\ outstanding (driver_state (snd (execute_update (pooled (execute_fails integrity_failure))
                                       (SqlText "SELECT 1") None
                                       (World (ThreadedConnectionPool 1 10 ∅) []))))
     = outstanding (driver_state (World (ThreadedConnectionPool 1 10 ∅) []))
  /\ outstanding (driver_state (snd (execute_many (pooled (execute_fails integrity_failure))
                                       (SqlText "SELECT 1") [[VInt 1]]
                                       (World (ThreadedConnectionPool 1 10 ∅) []))))
     = outstanding (driver_state (World (ThreadedConnectionPool 1 10 ∅) [])).
Proof.
  apply (pooled_call_is_balanced (execute_fails integrity_failure) (SqlText "SELECT 1") None
           [[VInt 1]] 2%nat (World (ThreadedConnectionPool 1 10 ∅) [])).
  reflexivity.
Defined.

(** X19: a declined confirmation turns a setup with [drop_existing] into
    one without.  When the answer at the prompt is anything but 'yes',
    [setup_all(drop_existing=True)] continues exactly as
    [setup_all(drop_existing=False)] does after the prompt, and so issues no
    [DROP TABLE], whatever the database answers. *)
Theorem declined_drop_is_plain_setup (S : Type)
    (db_execute_query : sql -> option params -> M S rows)
    (db_execute_update : sql -> option params -> M S Z) (input : M S string)
    (response : string) (s s1 : S) (log : list request) :
  input s = (Return response, s1) ->
  String.eqb (lower response) "yes" = false ->
  setup_all (recorded_query db_execute_query) (recorded_update db_execute_update)
    (recorded_input input) true (s, log)
  = setup_all (recorded_query db_execute_query) (recorded_update db_execute_update)
      (recorded_input input) false (s1, log ++ [Prompt])
  /\ exists l,
       snd (snd (setup_all (recorded_query db_execute_query)
                   (recorded_update db_execute_update) (recorded_input input) true (s, log)))
       = log ++ Prompt :: l
       /\ Forall (fun req => is_drop_request req = false) l.
Proof.
  intros Hin Hyes.
  assert (Heq : setup_all (recorded_query db_execute_query) (recorded_update db_execute_update)
                  (recorded_input input) true (s, log)
                = setup_all (recorded_query db_execute_query)
                    (recorded_update db_execute_update) (recorded_input input) false
                    (s1, log ++ [Prompt])).
  { unfold setup_all. unfold bind at 1 9. unfold _drop_all_tables, recorded_input.
    unfold bind at 1. rewrite recorded_run, Hin. cbn [fst snd]. rewrite Hyes. reflexivity. }
  split; [ exact Heq | ].
  rewrite Heq.
  assert (Hrest : issues_only (S := S) (fun req => is_drop_request req = false)
                    (setup_all (recorded_query db_execute_query)
                       (recorded_update db_execute_update) (recorded_input input) false)).
  { unfold setup_all, _setup_pgvector, _create_analysis_registry, _create_stg_rejects,
      _create_insights_cache, _create_query_history, _create_embeddings,
      create_table_if_absent, _add_foreign_keys, foreign_key_round, _create_indexes,
      index_round, _table_exists, _constraint_exists, recorded_query, recorded_update.
    issues. }
  destruct (Hrest (s1, log ++ [Prompt])) as (l & Hl & Hforall).
  exists l. split; [ | exact Hforall ].
  rewrite Hl. cbn [snd]. rewrite <- app_assoc. reflexivity.
Qed.

Lemma declined_drop_is_plain_setup_witness :
  setup_all (recorded_query (constant_query nothing_found))
    (recorded_update (failing_update duplicate_object))
    (recorded_input (console "No")) true (tt, [])
  = setup_all (recorded_query (constant_query nothing_found))
      (recorded_update (failing_update duplicate_object))
      (recorded_input (console "No")) false (tt, [] ++ [Prompt])
  /\ exists l,
       snd (snd (setup_all (recorded_query (constant_query nothing_found))
                   (recorded_update (failing_update duplicate_object))
                   (recorded_input (console "No")) true (tt, [])))
       = [] ++ Prompt :: l
       /\ Forall (fun req => is_drop_request req = false) l.
Proof.
  apply (declined_drop_is_plain_setup unit (constant_query nothing_found)
           (failing_update duplicate_object) (console "No") "No" tt tt []);
    reflexivity.
Defined.
